(** * maelstrom: SUPG stabilization kernels and the heat/Stokes fixed-point
      warm start

    Shallow embedding of
    - [maelstrom/stabilization.py]: the two [SupgStab::eval] kernels that
      [supg] and [supg2] attach to a dolfin [Expression];
    - [maelstrom/stokes_heat.py]: [_solve_fixed_point].

    The kernels are written once, over an interface of [double]
    arithmetic, and read at two instances: IEEE 754 binary64 (what the
    compiled kernels compute, one rounding per operation) and exact real
    arithmetic (what the formulas mean). *)

From Stdlib Require Import ZArith QArith Qabs Reals Lra Lia Psatz List Bool.
From Stdlib Require Import Floats.SpecFloat.
Import ListNotations.

Set Implicit Arguments.

(* ================================================================= *)
(** * Part I: definitions *)
(* ================================================================= *)

(** ** The arithmetic of a C [double] *)

Declare Scope dbl_scope.
Delimit Scope dbl_scope with dbl.

Class Arith (T : Type) : Type := {
  of_int : Z -> T;              (* int -> double conversion *)
  fadd : T -> T -> T;
  fsub : T -> T -> T;
  fmul : T -> T -> T;
  fdiv : T -> T -> T;
  fsqrt : T -> T;               (* sqrt *)
  fabs : T -> T;                (* fabs *)
  flt : T -> T -> bool;         (* a < b *)
  fle : T -> T -> bool          (* a <= b *)
}.

(** [tanh] comes from the C math library, not from the arithmetic. *)
Class Libm (T : Type) : Type := { ftanh : T -> T }.

Infix "+" := fadd : dbl_scope.
Infix "-" := fsub : dbl_scope.
Infix "*" := fmul : dbl_scope.
Infix "/" := fdiv : dbl_scope.
Infix "<?" := flt : dbl_scope.
Infix "<=?" := fle : dbl_scope.
Notation "a >? b" := (flt b a) : dbl_scope.

Section Literals.
Context {T : Type} {A : Arith T}.

(** The decimal literal [m]e[k]: both [m] and the power of ten are
    integers a double holds exactly, so one division rounds the
    literal correctly. *)
Definition dec (m k : Z) : T :=
  if (0 <=? k)%Z then of_int (m * 10 ^ k)
  else (of_int m / of_int (10 ^ (- k)))%dbl.

Definition lit_0 : T := of_int 0.            (* 0.0 *)
Definition lit_0_5 : T := dec 5 (-1).        (* 0.5 *)
Definition lit_1 : T := of_int 1.            (* 1.0 *)
Definition lit_2 : T := of_int 2.            (* 2.0 *)
Definition lit_3 : T := of_int 3.            (* 3.0 *)
Definition lit_45 : T := of_int 45.          (* 45.0 *)
Definition lit_945 : T := of_int 945.        (* 945.0 *)
Definition lit_1em5 : T := dec 1 (-5).       (* 1.0e-5 *)
Definition lit_1e3 : T := dec 1 3.           (* 1.0e3 *)
End Literals.

(** *** IEEE 754 binary64, round to nearest even *)

Definition prec64 : Z := 53.
Definition emax64 : Z := 1024.

#[export] Instance binary64 : Arith spec_float := {|
  of_int := fun z => binary_normalize prec64 emax64 z 0 false;
  fadd := SFadd prec64 emax64;
  fsub := SFsub prec64 emax64;
  fmul := SFmul prec64 emax64;
  fdiv := SFdiv prec64 emax64;
  fsqrt := SFsqrt prec64 emax64;
  fabs := SFabs;
  flt := SFltb;
  fle := SFleb
|}.

(** *** Exact real arithmetic *)

Definition Rltb (a b : R) : bool := if Rlt_dec a b then true else false.
Definition Rleb (a b : R) : bool := if Rle_dec a b then true else false.

#[export] Instance exact : Arith R := {|
  of_int := IZR;
  fadd := Rplus;
  fsub := Rminus;
  fmul := Rmult;
  fdiv := Rdiv;
  fsqrt := sqrt;
  fabs := Rabs;
  flt := Rltb;
  fle := Rleb
|}.

#[export] Instance exact_libm : Libm R := {| ftanh := tanh |}.

(** ** Mesh cells *)

(** [dolfin::Point], read through [p[0]] and [p[1]]. *)
Record Point (T : Type) : Type := mkPoint { coord0 : T; coord1 : T }.

(** A triangular [Cell]: the points of [cell.entities(0)]. *)
Record Cell (T : Type) : Type := mkCell {
  vertex0 : Point T;
  vertex1 : Point T;
  vertex2 : Point T
}.

Definition vertices {T} (c : Cell T) (i : nat) : Point T :=
  match i with
  | O => vertex0 c
  | S O => vertex1 c
  | _ => vertex2 c
  end.

(** What the kernels ask of the mesh library: the constant [DOLFIN_EPS]
    and the cell measures [cell.volume()] and [cell.diameter()]. *)
Class Dolfin (T : Type) : Type := {
  DOLFIN_EPS : T;
  volume : Cell T -> T;
  diameter : Cell T -> T
}.

(** ** [SupgStab::eval] *)

(** How an evaluation ends: it returns with the output array filled, an
    [assert] aborts it, or [throw 1] leaves it. *)
Inductive check : Type :=
| h_le_diameter        (* assert(h <= cell.diameter()) *)
| Pe_positive.         (* assert(Pe > 0.0) *)

Inductive outcome (A : Type) : Type :=
| Returned (a : A)
| AssertFailed (c : check)
| Thrown (code : Z).
Arguments AssertFailed {A} c.
Arguments Thrown {A} code.

Section Kernels.
Context {T : Type} {A : Arith T}.
Local Open Scope dbl_scope.

(** [conv_norm]: the accumulation loop over the two components, then
    [sqrt]. *)
Definition conv_norm (b : T * T) : T :=
  fsqrt (fold_left (fun acc bi => acc + bi * bi) [fst b; snd b] lit_0).

(** The index pairs visited by
    [for (i=0; i<3; i++) for (j=i+1; j<3; j++)]. *)
Definition edge_pairs : list (nat * nat) :=
  flat_map (fun i => map (fun j => (i, j)) (seq (S i) (3 - S i))) (seq 0 3).

(** One pass of the loop body: [fabs(e1*b[0] - e0*b[1])]. *)
Definition edge_term (c : Cell T) (b : T * T) (ij : nat * nat) : T :=
  let p0 := vertices c (fst ij) in
  let p1 := vertices c (snd ij) in
  let e0 := coord0 p0 - coord0 p1 in
  let e1 := coord1 p0 - coord1 p1 in
  fabs (e1 * fst b - e0 * snd b).

(** [sum] after the two loops. *)
Definition edge_sum (c : Cell T) (b : T * T) : T :=
  fold_left (fun sum ij => sum + edge_term c b ij) edge_pairs lit_0.

(** [h = 4 * conv_norm * area / sum]. *)
Definition directed_diameter (area : T) (c : Cell T) (b : T * T) : T :=
  of_int 4 * conv_norm b * area / edge_sum c b.

(** [Pe = 0.5*conv_norm * h/(p*sigma)]. *)
Definition peclet (sigma : T) (p : Z) (nrm h : T) : T :=
  lit_0_5 * nrm * h / (of_int p * sigma).

(** The two branches of [xi] and their selection. *)
Definition xi_closed {L : Libm T} (Pe : T) : T :=
  lit_1 / ftanh Pe - lit_1 / Pe.

Definition xi_taylor (Pe : T) : T :=
  Pe / lit_3 - Pe * Pe * Pe / lit_45
  + lit_2 / lit_945 * Pe * Pe * Pe * Pe * Pe.

Definition xi {L : Libm T} (Pe : T) : T :=
  if Pe >? lit_1em5 then xi_closed Pe else xi_taylor Pe.

(** [0.5*h*xi / (p*conv_norm)]. *)
Definition tau_of (p : Z) (nrm h x : T) : T :=
  lit_0_5 * h * x / (of_int p * nrm).

Context {L : Libm T} {D : Dolfin T}.

(** [tau] as both kernels compute it once past the norm test. *)
Definition tau (sigma : T) (p : Z) (c : Cell T) (b : T * T) : T :=
  let h := directed_diameter (volume c) c b in
  tau_of p (conv_norm b) h (xi (peclet sigma p (conv_norm b) h)).

(** The kernel of [supg]: the output array [b_tau] holds the
    convection sample [b] on entry to the computation and [tau*b] on
    return.  [ndebug] tells whether the kernel was compiled with
    [NDEBUG], which removes the [assert]s. *)
Definition supg_eval (ndebug : bool) (sigma : T) (p : Z)
    (c : Cell T) (b_tau : T * T) : outcome (T * T) :=
  let conv_norm := conv_norm b_tau in
  if conv_norm <? DOLFIN_EPS then Returned (lit_0, lit_0)
  else
    let area := volume c in
    let h := directed_diameter area c b_tau in
    if negb ndebug && negb (h <=? diameter c)
    then AssertFailed h_le_diameter
    else
      let Pe := peclet sigma p conv_norm h in
      if negb ndebug && negb (Pe >? lit_0) then AssertFailed Pe_positive
      else
        let xi := xi Pe in
        let tau := tau_of p conv_norm h xi in
        if tau >? lit_1e3 then Thrown 1
        else Returned (fst b_tau * tau_of p conv_norm h xi,
                       snd b_tau * tau_of p conv_norm h xi).

(** The kernel of [supg2]: [v] is the convection sample, [tau0] the
    content of the output cell [tau[0]] on entry.  The norm test
    stores [0.0] and falls through; the checks on [h] and [tau] are
    commented out in the source. *)
Definition supg2_eval (ndebug : bool) (sigma : T) (p : Z)
    (c : Cell T) (v : T * T) (tau0 : T) : outcome T :=
  let conv_norm := conv_norm v in
  let tau0 := if conv_norm <? DOLFIN_EPS then lit_0 else tau0 in
  let area := volume c in
  let h := directed_diameter area c v in
  let Pe := peclet sigma p conv_norm h in
  if negb ndebug && negb (Pe >? lit_0) then AssertFailed Pe_positive
  else
    let xi := xi Pe in
    let tau0 := tau_of p conv_norm h xi in
    Returned tau0.
End Kernels.

(** ** A mesh library for the plane *)

Section TriangleMeasures.
Context {T : Type} {A : Arith T}.
Local Open Scope dbl_scope.

(** Modelled from the spec: [cell.volume()] belongs to the mesh
    library, whose code is not among the sources; section 4.1 names it
    the triangle's unsigned area. *)
Definition triangle_area (c : Cell T) : T :=
  let x0 := vertex0 c in
  let x1 := vertex1 c in
  let x2 := vertex2 c in
  lit_0_5 * fabs ((coord0 x1 - coord0 x0) * (coord1 x2 - coord1 x0)
                  - (coord0 x2 - coord0 x0) * (coord1 x1 - coord1 x0)).

Definition edge_length (p q : Point T) : T :=
  fsqrt ((coord0 p - coord0 q) * (coord0 p - coord0 q)
         + (coord1 p - coord1 q) * (coord1 p - coord1 q)).

Definition fmax (a b : T) : T := if a <? b then b else a.

(** Modelled from the spec: [cell.diameter()] belongs to the mesh
    library too; the conventional (undirected) diameter of a triangle
    is taken to be its longest edge. *)
Definition longest_edge (c : Cell T) : T :=
  fmax (fmax (edge_length (vertex0 c) (vertex1 c))
             (edge_length (vertex0 c) (vertex2 c)))
       (edge_length (vertex1 c) (vertex2 c)).

(** Modelled from the spec: the other conventional measure of a cell,
    twice the circumradius, [0.5*a*b*c / area] for the edge lengths
    [a], [b], [c]. *)
Definition circumdiameter (c : Cell T) : T :=
  let a := edge_length (vertex1 c) (vertex2 c) in
  let b := edge_length (vertex0 c) (vertex2 c) in
  let cc := edge_length (vertex0 c) (vertex1 c) in
  lit_0_5 * a * b * cc / triangle_area c.

(** [DOLFIN_EPS] is 3.0e-16 in the mesh library's constants. *)
Definition plane_mesh : Dolfin T := {|
  DOLFIN_EPS := dec 3 (-16);
  volume := triangle_area;
  diameter := longest_edge
|}.

Definition plane_mesh_circum : Dolfin T := {|
  DOLFIN_EPS := dec 3 (-16);
  volume := triangle_area;
  diameter := circumdiameter
|}.
End TriangleMeasures.

Definition pt {T} {A : Arith T} (x y : Z) : Point T :=
  mkPoint (of_int x) (of_int y).

(** The right triangle (0,0), (a,0), (0,c); the unit right triangle. *)
Definition right_triangle {T} {A : Arith T} (a c : Z) : Cell T :=
  mkCell (pt 0 0) (pt a 0) (pt 0 c).

Definition unit_triangle {T} {A : Arith T} : Cell T := right_triangle 1 1.

(** The double [2^e]. *)
Definition two_pow (e : Z) : spec_float :=
  binary_normalize prec64 emax64 1 e false.

(** ** [_solve_fixed_point] *)

(** The finite-element objects and the solvers are collaborators.
    [Mixed] is a function on the velocity/pressure space [WP], whose
    components [split] exposes as views (no copy). *)
Class Collaborators : Type := {
  Velocity : Type;
  Pressure : Type;
  Mixed : Type;
  Temperature : Type;
  Density : Type;
  Force : Type;
  Function_WP : Mixed;           (* Function(WP), freshly allocated *)
  Function_Q : Temperature;      (* Function(Q) *)
  split : Mixed -> Velocity * Pressure;
  rho : Temperature -> Density;
  (* heat.Heat(Q, convection=., rho=., ...).solve_stationary() *)
  solve_stationary : Velocity -> Density -> Temperature;
  (* f = rho(theta0) * g, plus extra_force when there is one *)
  body_force : Density -> Force;
  (* stokes.stokes_solve(up0, mu, u_bcs, p_bcs, f, ...): the new
     content of up0 *)
  stokes_solve : Mixed -> Force -> Mixed;
  errornorm : Temperature -> Temperature -> spec_float
}.

Section FixedPointCoupler.
Context {C : Collaborators}.

(** The solver calls of a run, with the arguments they were given. *)
Inductive call : Type :=
| HeatSolve (convection : Velocity) (rho_theta : Density)
| StokesSolve (up : Mixed) (f : Force).

(** The objects the loop mutates. *)
Record coupler : Type := mkCoupler {
  up0 : Mixed;
  theta0 : Temperature;
  theta1 : Temperature
}.

(** One pass through the body of [while True]; the flag tells whether
    [break] was taken. *)
Definition loop_body (tol : spec_float) (s : coupler)
    : bool * coupler * list call :=
  let u0 := fst (split (up0 s)) in
  let th1 := solve_stationary u0 (rho (theta0 s)) in
  let f := body_force (rho (theta0 s)) in
  let up := stokes_solve (up0 s) f in
  let theta_diff := errornorm (theta0 s) th1 in
  let diff := theta_diff in
  let calls := [HeatSolve u0 (rho (theta0 s)); StokesSolve (up0 s) f] in
  if SFltb diff tol
  then (true, mkCoupler up (theta0 s) th1, calls)
  else (false, mkCoupler up th1 th1, calls).

(** [while True] run for at most [fuel] passes: [None] when the loop
    is still running after them. *)
Fixpoint while_true (fuel : nat) (tol : spec_float) (s : coupler)
    : option coupler * list call :=
  match fuel with
  | O => (None, [])
  | S fuel' =>
      let '(brk, s', calls) := loop_body tol s in
      if brk then (Some s', calls)
      else
        let (r, rest) := while_true fuel' tol s' in
        (r, calls ++ rest)
  end.

Definition _solve_fixed_point (fuel : nat)
    (u0 : Velocity) (p0 : Pressure) (theta0 : Temperature)
    (tol : spec_float)
    : option (Velocity * Pressure * Temperature) * list call :=
  let up0 := Function_WP in
  let (u0, p0) := split up0 in
  let theta1 := Function_Q in
  let (r, calls) := while_true fuel tol (mkCoupler up0 theta0 theta1) in
  (option_map
     (fun s : coupler =>
        let 'mkCoupler up0 theta0 _ := s in
        let (u0, p0) := split up0 in
        (u0, p0, theta0))
     r,
   calls).

(** *** The iterates, for stating properties of a run *)

(** The temperature candidate a pass computes from [s]. *)
Definition candidate (s : coupler) : Temperature :=
  solve_stationary (fst (split (up0 s))) (rho (theta0 s)).

(** The convergence test of a pass started in [s]. *)
Definition converged (tol : spec_float) (s : coupler) : bool :=
  SFltb (errornorm (theta0 s) (candidate s)) tol.

(** The state after a pass that did not break. *)
Definition next (s : coupler) : coupler :=
  mkCoupler (stokes_solve (up0 s) (body_force (rho (theta0 s))))
            (candidate s) (candidate s).

(** The state at the head of pass [k]. *)
Definition pass (k : nat) (s : coupler) : coupler := Nat.iter k next s.

(** What is returned when the pass started in [s] breaks. *)
Definition leave (s : coupler) : Velocity * Pressure * Temperature :=
  let up := stokes_solve (up0 s) (body_force (rho (theta0 s))) in
  (fst (split up), snd (split up), theta0 s).

Definition initial (th0 : Temperature) : coupler :=
  mkCoupler Function_WP th0 Function_Q.
End FixedPointCoupler.

(** *** Small problems

    Fields are integers; the density is the temperature itself, the
    Stokes velocity is the force and the pressure 0.  The problems
    differ in their heat equation. *)

Definition toy_errornorm (a b : Z) : spec_float := of_int (Z.abs (a - b)).

Definition toy_problem (heat : Z -> Z -> Z) : Collaborators := {|
  Velocity := Z;
  Pressure := Z;
  Mixed := Z * Z;
  Temperature := Z;
  Density := Z;
  Force := Z;
  Function_WP := (0, 0)%Z;
  Function_Q := 0%Z;
  split := fun up => up;
  rho := fun theta => theta;
  solve_stationary := heat;
  body_force := fun rho_theta => rho_theta;
  stokes_solve := fun up f => (f, 0%Z);
  errornorm := toy_errornorm
|}.

(** Decoupled: the heat equation has the solution 10 whatever the
    convection and the density. *)
Definition decoupled : Collaborators := toy_problem (fun u rho_theta => 10%Z).

(** Drifting: each heat solve moves the temperature by one. *)
Definition drifting : Collaborators :=
  toy_problem (fun u rho_theta => (rho_theta + 1)%Z).

(** Contracting: each heat solve halves the temperature. *)
Definition halving : Collaborators :=
  toy_problem (fun u rho_theta => (rho_theta / 2)%Z).

Definition tol_1em2 : spec_float := dec 1 (-2).
Definition tol_1_5 : spec_float := dec 15 (-1).

(** ** Auxiliary notions for the proofs *)

(** The Euclidean norm in the plane. *)
Definition norm2 (x y : R) : R := sqrt (x * x + y * y).

(** The terms of the exponential series and its partial sum of order 5. *)
Definition exp_term (x : R) (k : nat) : R := / INR (fact k) * x ^ k.

Definition P5 (x : R) : R :=
  1 + x + x ^ 2 / 2 + x ^ 3 / 6 + x ^ 4 / 24 + x ^ 5 / 120.

(** The rational a finite double stands for. *)
Definition SF2Q (f : spec_float) : option Q :=
  match f with
  | S754_zero _ => Some 0%Q
  | S754_finite s m e =>
      Some ((if s then -1 else 1) * inject_Z (Zpos m) * Qpower 2 e)%Q
  | _ => None
  end.

(** [a] and [b] agree to within the relative error [tol], measured
    against either of them. *)
Definition agree_within (tol : Q) (a b : spec_float) : bool :=
  match SF2Q a, SF2Q b with
  | Some x, Some y =>
      Qle_bool (Qabs (x - y)) (tol * Qabs x)
      || Qle_bool (Qabs (x - y)) (tol * Qabs y)
  | _, _ => false
  end.

(** A math library whose [tanh] answers [t]. *)
Definition tanh_is (t : spec_float) : Libm spec_float :=
  {| ftanh := fun _ => t |}.

(** The positive double with mantissa [m] and exponent [e]. *)
Definition finite64 (m e : Z) : spec_float :=
  S754_finite false (Z.to_pos m) e.

(** The mantissa, at exponent -69, of the double nearest to the
    hyperbolic tangent of the double 1.0e-5. *)
Definition tanh_1em5_mantissa : Z := 5902958103390292.

(** The closed form of [xi] at the double 1.0e-5 when [tanh] answers
    the double of mantissa [m]: whether it differs from the Taylor
    branch by more than [tol]. *)
Definition branches_differ (tol : Q) (m : Z) : bool :=
  negb (agree_within tol
          (xi_closed (L := tanh_is (finite64 m (-69))) lit_1em5)
          (xi_taylor (lit_1em5 : spec_float))).

Definition Zrange (lo : Z) (n : nat) : list Z :=
  map (fun i => (lo + Z.of_nat i)%Z) (seq 0 n).

(** ** Renumbering and moving a cell *)

(** The cell with its first two vertices exchanged, with its vertices
    rotated, and moved by a vector. *)
Definition swap01 {T} (c : Cell T) : Cell T :=
  mkCell (vertex1 c) (vertex0 c) (vertex2 c).

Definition rotate {T} (c : Cell T) : Cell T :=
  mkCell (vertex1 c) (vertex2 c) (vertex0 c).

Definition translate (dx dy : R) (c : Cell R) : Cell R :=
  let move p := mkPoint (coord0 p + dx)%R (coord1 p + dy)%R in
  mkCell (move (vertex0 c)) (move (vertex1 c)) (move (vertex2 c)).

(** ** More of [stokes_heat.py] *)

(** The calls of the pass started in [s]. *)
Definition calls_of_pass {C : Collaborators} (s : coupler) : list call :=
  [HeatSolve (fst (split (up0 s))) (rho (theta0 s));
   StokesSolve (up0 s) (body_force (rho (theta0 s)))].

(** *** Python floats *)

(** The exceptions the modelled code can raise: a float division by
    zero, or whatever a collaborator raises. *)
Inductive py_exception : Type :=
| ZeroDivisionError
| CollaboratorError (name : nat).

(** [a / b] on Python floats: IEEE division, except that a zero divisor
    raises. *)
Definition py_truediv (a b : spec_float) : py_exception + spec_float :=
  match b with
  | S754_zero _ => inl ZeroDivisionError
  | _ => inr (SFdiv prec64 emax64 a b)
  end.

(** *** [FixedPointSolver] *)

(** [self.parameters]. *)
Record fp_parameters : Type := mkParameters {
  maximum_iterations : Z;
  absolute_tolerance : spec_float;
  relative_tolerance : spec_float;
  report : bool
}.

(** [FixedPointSolver.__init__]. *)
Definition FixedPointSolver_init : fp_parameters :=
  mkParameters 0 lit_0 lit_0 true.

(** The problem and the vectors [solve] works on: [problem.F(res,
    vector)] fills [res], [norm(res)] is a Python float, and
    [vector[:] += res] adds in place. *)
Class FixedPointProblem : Type := {
  GenericVector : Type;
  problem_F : GenericVector -> GenericVector;
  vector_norm : GenericVector -> spec_float;
  vector_iadd : GenericVector -> GenericVector -> GenericVector
}.

(** How a call of [solve] ends: it returns with the vector updated in
    place, an exception leaves it with the vector as it is then, or the
    loop is still running. *)
Inductive fp_outcome (V : Type) : Type :=
| FPReturned (vector : V) (printed : list (nat * spec_float * spec_float))
| FPRaised (e : py_exception) (vector : V)
| FPRunning.
Arguments FPRunning {V}.

Section FixedPointSolver.
Context {Pb : FixedPointProblem}.
Variable parameters : fp_parameters.

(** [_report]: the line printed, as the iteration number, the norm and
    the relative norm it shows; the division is made only when
    [report] is set. *)
Definition _report (k : nat) (nrm nrm0 : spec_float)
    : py_exception + list (nat * spec_float * spec_float) :=
  if report parameters then
    match py_truediv nrm nrm0 with
    | inl e => inl e
    | inr rel => inr [(k, nrm, rel)]
    end
  else inr [].

(** The condition of the [while]:
    [nrm > absolute_tolerance or nrm / nrm0 > relative_tolerance]. *)
Definition loop_condition (nrm nrm0 : spec_float) : py_exception + bool :=
  if SFltb (absolute_tolerance parameters) nrm then inr true
  else
    match py_truediv nrm nrm0 with
    | inl e => inl e
    | inr rel => inr (SFltb (relative_tolerance parameters) rel)
    end.

(** The [while] loop, for at most [fuel] passes through its body. *)
Fixpoint fp_while (fuel : nat) (vector : GenericVector)
    (nrm nrm0 : spec_float) (k : nat)
    (printed : list (nat * spec_float * spec_float))
    : fp_outcome GenericVector :=
  match loop_condition nrm nrm0 with
  | inl e => FPRaised e vector
  | inr false => FPReturned vector printed
  | inr true =>
      match fuel with
      | O => FPRunning
      | S fuel' =>
          let res := problem_F vector in
          let vector := vector_iadd vector res in
          let nrm := vector_norm res in
          let k := S k in
          match _report k nrm nrm0 with
          | inl e => FPRaised e vector
          | inr line => fp_while fuel' vector nrm nrm0 k (printed ++ line)
          end
      end
  end.

(** [FixedPointSolver.solve]. *)
Definition FixedPointSolver_solve (fuel : nat) (vector : GenericVector)
    : fp_outcome GenericVector :=
  let res := problem_F vector in
  let nrm := vector_norm res in
  let nrm0 := nrm in
  let k := O in
  match _report k nrm nrm0 with
  | inl e => FPRaised e vector
  | inr line => fp_while fuel vector nrm nrm0 k line
  end.

(** *** The iterates of [solve], for stating properties *)

(** The vector after [j] passes through the body. *)
Definition fp_iterate (j : nat) (vector : GenericVector) : GenericVector :=
  Nat.iter j (fun x => vector_iadd x (problem_F x)) vector.

(** The norm [nrm] holds when the condition is evaluated for the
    [j]-th time (counting from 0): that of the residual of the iterate
    before the last update. *)
Definition tested_norm (j : nat) (vector : GenericVector) : spec_float :=
  vector_norm (problem_F (fp_iterate (Nat.pred j) vector)).

(** The norm [nrm] holds after [i] more passes through the body, when
    it holds [nrm0] now. *)
Definition norm_after (nrm0 : spec_float) (i : nat) (vector : GenericVector)
    : spec_float :=
  match i with
  | O => nrm0
  | S i' => vector_norm (problem_F (fp_iterate i' vector))
  end.

(** The lines printed up to and including iteration [j]. *)
Definition printed_upto (j : nat) (vector : GenericVector)
    : list (nat * spec_float * spec_float) :=
  if report parameters then
    map (fun k => (k, tested_norm k vector,
                   SFdiv prec64 emax64 (tested_norm k vector)
                     (tested_norm 0 vector)))
      (seq 0 (S j))
  else [].
End FixedPointSolver.

(** A scalar problem: the residual of [x] is [- x / 2], so each update
    halves the vector; the norm is the magnitude. *)
Definition halving_problem : FixedPointProblem := {|
  GenericVector := spec_float;
  problem_F := fun x => SFopp (SFmul prec64 emax64 x lit_0_5);
  vector_norm := SFabs;
  vector_iadd := SFadd prec64 emax64
|}.

(** A problem whose residual never changes. *)
Definition constant_problem : FixedPointProblem := {|
  GenericVector := spec_float;
  problem_F := fun _ => lit_1;
  vector_norm := SFabs;
  vector_iadd := SFadd prec64 emax64
|}.

(** *** [_average] and [solve] *)

(** What [solve] needs beyond the collaborators of the warm start. *)
Class Monolithic (C : Collaborators) : Type := {
  Joint : Type;                        (* a function on WPQ *)
  ConstantDensity : Type;
  Function_WPQ : Joint;                (* Function(WPQ) *)
  (* assign(uptheta0.sub(i), .) for i = 0, 1, 2 *)
  assign_subs : Joint -> Velocity -> Pressure -> Temperature -> Joint;
  assemble_dx : Temperature -> spec_float;   (* assemble(u * dx) *)
  assemble_one : spec_float;                 (* assemble(1.0 * dx(mesh)) *)
  rho_of_float : spec_float -> ConstantDensity;
  (* PETScSNESSolver.solve on the StokesHeat problem: the new content
     of uptheta0.vector(), or what the solver raises *)
  snes_solve : ConstantDensity -> Joint -> py_exception + Joint;
  split_deepcopy : Joint -> Velocity * Pressure * Temperature
}.

Inductive solve_outcome (A : Type) : Type :=
| SolveReturned (a : A)
| SolveRaised (e : py_exception)
| SolveRunning.
Arguments SolveRaised {A} e.
Arguments SolveRunning {A}.

Section Solve.
Context {C : Collaborators} {M : Monolithic C}.

(** [_average]. *)
Definition _average (u : Temperature) : py_exception + spec_float :=
  py_truediv (assemble_dx u) assemble_one.

(** [solve]. *)
Definition solve (fuel : nat) (u0 : Velocity) (p0 : Pressure)
    (theta0 : Temperature)
    : solve_outcome (Velocity * Pressure * Temperature) :=
  match fst (_solve_fixed_point fuel u0 p0 theta0 (dec 1 (-2))) with
  | None => SolveRunning
  | Some (u0, p0, theta0) =>
      let uptheta0 := Function_WPQ in
      let uptheta0 := assign_subs uptheta0 u0 p0 theta0 in
      match _average theta0 with
      | inl e => SolveRaised e
      | inr average =>
          let rho_const := rho_of_float average in
          match snes_solve rho_const uptheta0 with
          | inl e => SolveRaised e
          | inr uptheta0 => SolveReturned (split_deepcopy uptheta0)
          end
      end
  end.
End Solve.

(** A monolithic problem for the small problems above: the joint
    function is the triple of its parts, the density constant is the
    average itself, the domain has measure 1 and the Newton solver
    accepts its initial guess. *)
Definition toy_monolithic (C : Collaborators)
    (average_of : Temperature -> spec_float) : Monolithic C := {|
  Joint := Velocity * Pressure * Temperature;
  ConstantDensity := spec_float;
  Function_WPQ :=
    (fst (split Function_WP), snd (split Function_WP), Function_Q);
  assign_subs := fun _ u p theta => (u, p, theta);
  assemble_dx := average_of;
  assemble_one := lit_1;
  rho_of_float := fun x => x;
  snes_solve := fun _ uptheta => inr uptheta;
  split_deepcopy := fun uptheta => uptheta
|}.
Arguments toy_monolithic C average_of : clear implicits.

(** The default parameters with the two tolerances set. *)
Definition tolerances (abs_tol rel_tol : spec_float) : fp_parameters :=
  mkParameters 0 abs_tol rel_tol true.

(* ================================================================= *)
(** * Part II: properties *)
(* ================================================================= *)

Unset Implicit Arguments.

(** ** The fixed-point coupler *)

Section CouplerFacts.
Context {C : Collaborators}.
Variable tol : spec_float.

Lemma loop_body_eq (s : coupler) :
  loop_body tol s =
  let calls := [HeatSolve (fst (split (up0 s))) (rho (theta0 s));
                StokesSolve (up0 s) (body_force (rho (theta0 s)))] in
  if converged tol s
  then (true,
        mkCoupler (stokes_solve (up0 s) (body_force (rho (theta0 s))))
          (theta0 s) (candidate s),
        calls)
  else (false, next s, calls).
Proof. reflexivity. Qed.

Lemma pass_S (k : nat) (s : coupler) : pass (S k) s = pass k (next s).
Proof.
  unfold pass. induction k as [|k IH]; [reflexivity|].
  change (Nat.iter (S (S k)) next s) with (next (Nat.iter (S k) next s)).
  rewrite IH. reflexivity.
Qed.

(** The loop leaves in the first pass whose test succeeds, and in no
    earlier one. *)
Lemma while_true_exit (n : nat) :
  forall (s : coupler) (fuel : nat),
    (forall k, (k < n)%nat -> converged tol (pass k s) = false) ->
    converged tol (pass n s) = true ->
    fst (while_true fuel tol s) =
    if (n <? fuel)%nat
    then Some (mkCoupler
                 (stokes_solve (up0 (pass n s))
                    (body_force (rho (theta0 (pass n s)))))
                 (theta0 (pass n s)) (candidate (pass n s)))
    else None.
Proof.
  induction n as [|n IH]; intros s fuel Hbefore Hnow.
  - destruct fuel as [|fuel]; [reflexivity|].
    cbn [while_true]. rewrite loop_body_eq. cbv zeta.
    rewrite (Hnow : converged tol s = true). reflexivity.
  - destruct fuel as [|fuel]; [reflexivity|].
    cbn [while_true]. rewrite loop_body_eq. cbv zeta.
    assert (H0 : converged tol s = false) by (apply (Hbefore 0%nat); lia).
    rewrite H0.
    specialize (IH (next s) fuel).
    destruct (while_true fuel tol (next s)) as [r rest] eqn:E.
    cbn [fst] in *.
    rewrite IH.
    + rewrite !pass_S. change (S n <? S fuel)%nat with (n <? fuel)%nat.
      reflexivity.
    + intros k Hk. rewrite <- pass_S. apply Hbefore. lia.
    + rewrite <- pass_S. exact Hnow.
Qed.

(** A test that never succeeds keeps the loop running. *)
Lemma while_true_diverges (fuel : nat) :
  forall s : coupler,
    (forall k, converged tol (pass k s) = false) ->
    fst (while_true fuel tol s) = None.
Proof.
  induction fuel as [|fuel IH]; intros s Hnever; [reflexivity|].
  cbn [while_true]. rewrite loop_body_eq. cbv zeta.
  rewrite (Hnever 0%nat : converged tol s = false).
  specialize (IH (next s)).
  destruct (while_true fuel tol (next s)) as [r rest]. cbn [fst] in *.
  apply IH. intros k. rewrite <- pass_S. apply Hnever.
Qed.

(** The calls of pass [k], as long as the loop is still running. *)
Lemma while_true_calls (k : nat) :
  forall (s : coupler) (fuel : nat),
    (forall j, (j < k)%nat -> converged tol (pass j s) = false) ->
    (k < fuel)%nat ->
    nth_error (snd (while_true fuel tol s)) (2 * k) =
      Some (HeatSolve (fst (split (up0 (pass k s))))
              (rho (theta0 (pass k s)))) /\
    nth_error (snd (while_true fuel tol s)) (2 * k + 1) =
      Some (StokesSolve (up0 (pass k s))
              (body_force (rho (theta0 (pass k s))))).
Proof.
  induction k as [|k IH]; intros s fuel Hbefore Hfuel.
  - destruct fuel as [|fuel]; [lia|].
    cbn [while_true]. rewrite loop_body_eq. cbv zeta.
    destruct (converged tol s); [split; reflexivity|].
    destruct (while_true fuel tol (next s)) as [r rest]. split; reflexivity.
  - destruct fuel as [|fuel]; [lia|].
    cbn [while_true]. rewrite loop_body_eq. cbv zeta.
    rewrite (Hbefore 0%nat ltac:(lia) : converged tol s = false).
    specialize (IH (next s) fuel).
    destruct (while_true fuel tol (next s)) as [r rest]. cbn [snd] in *.
    replace (2 * S k)%nat with (S (S (2 * k))) by lia.
    replace (S (S (2 * k)) + 1)%nat with (S (S (2 * k + 1))) by lia.
    cbn [app nth_error]. rewrite !pass_S. apply IH; [|lia].
    intros j Hj. rewrite <- pass_S. apply Hbefore. lia.
Qed.

(** From the second pass on, the current temperature is the candidate
    of the pass before. *)
Lemma theta0_pass_S (k : nat) (s : coupler) :
  theta0 (pass (S k) s) = candidate (pass k s).
Proof. reflexivity. Qed.

Lemma solve_fst (fuel : nat) (u0 : Velocity) (p0 : Pressure)
    (th0 : Temperature) :
  fst (_solve_fixed_point fuel u0 p0 th0 tol) =
  option_map
    (fun s : coupler => (fst (split (up0 s)), snd (split (up0 s)), theta0 s))
    (fst (while_true fuel tol (initial th0))).
Proof.
  unfold _solve_fixed_point, initial.
  destruct (split Function_WP) as [u p].
  destruct (while_true _ _ _) as [r calls]. cbn [fst].
  destruct r as [[up th th1]|]; [|reflexivity].
  cbn. destruct (split up); reflexivity.
Qed.

Lemma solve_snd (fuel : nat) (u0 : Velocity) (p0 : Pressure)
    (th0 : Temperature) :
  snd (_solve_fixed_point fuel u0 p0 th0 tol) =
  snd (while_true fuel tol (initial th0)).
Proof.
  unfold _solve_fixed_point, initial.
  destruct (split Function_WP) as [u p].
  destruct (while_true _ _ _) as [r calls]. reflexivity.
Qed.

(** C6.  The loop returns exactly in the first pass whose temperature
    change is below the tolerance (after [n] earlier passes it is
    still running, with more fuel than that it has returned), and a
    run whose change never falls below the tolerance is still running
    after any number of passes: there is no iteration cap, and no
    outcome other than returning or running on. *)
Theorem fixed_point_exit_and_no_cap
    (u0 : Velocity) (p0 : Pressure) (th0 : Temperature) :
  (forall n : nat,
      (forall k, (k < n)%nat -> converged tol (pass k (initial th0)) = false) ->
      converged tol (pass n (initial th0)) = true ->
      forall fuel : nat,
        fst (_solve_fixed_point fuel u0 p0 th0 tol) =
        if (n <? fuel)%nat then Some (leave (pass n (initial th0)))
        else None) /\
  ((forall k, converged tol (pass k (initial th0)) = false) ->
   forall fuel : nat, fst (_solve_fixed_point fuel u0 p0 th0 tol) = None).
Proof.
  split.
  - intros n Hbefore Hnow fuel. rewrite solve_fst.
    rewrite (while_true_exit n _ fuel Hbefore Hnow).
    destruct (n <? fuel)%nat; reflexivity.
  - intros Hnever fuel. rewrite solve_fst.
    rewrite (while_true_diverges fuel _ Hnever). reflexivity.
Qed.

(** C9.  The run does not depend on the velocity and pressure it is
    given, and its first heat solve is convected by the velocity
    component of the freshly allocated [Function(WP)]. *)
Theorem fixed_point_ignores_initial_flow
    (fuel : nat) (u0 u0' : Velocity) (p0 p0' : Pressure)
    (th0 : Temperature) :
  _solve_fixed_point fuel u0 p0 th0 tol =
  _solve_fixed_point fuel u0' p0' th0 tol /\
  hd_error (snd (_solve_fixed_point (S fuel) u0 p0 th0 tol)) =
    Some (HeatSolve (fst (split Function_WP)) (rho th0)).
Proof.
  split; [reflexivity|].
  rewrite solve_snd.
  destruct (while_true_calls 0 (initial th0) (S fuel)) as [H _];
    [intros j Hj; lia | lia |].
  destruct (snd (while_true (S fuel) tol (initial th0))) as [|c l];
    cbn in H |- *; [discriminate | exact H].
Qed.

(** C10.  When the test first succeeds, in pass [n], the temperature
    returned is the one the pass started from: the initial temperature
    if [n = 0], else the candidate of pass [n - 1].  It is within the
    tolerance of the candidate of pass [n], which is the output of the
    last heat solve and is not what is returned. *)
Theorem fixed_point_returns_previous_iterate
    (u0 : Velocity) (p0 : Pressure) (th0 : Temperature)
    (n fuel : nat)
    (Hbefore : forall k, (k < n)%nat ->
                 converged tol (pass k (initial th0)) = false)
    (Hnow : converged tol (pass n (initial th0)) = true)
    (Hfuel : (n < fuel)%nat) :
  exists (u : Velocity) (p : Pressure) (theta : Temperature),
    fst (_solve_fixed_point fuel u0 p0 th0 tol) = Some (u, p, theta) /\
    theta = theta0 (pass n (initial th0)) /\
    theta = match n with
            | O => th0
            | S m => candidate (pass m (initial th0))
            end /\
    SFltb (errornorm theta (candidate (pass n (initial th0)))) tol = true.
Proof.
  destruct (fixed_point_exit_and_no_cap u0 p0 th0) as [Hexit _].
  specialize (Hexit n Hbefore Hnow fuel).
  apply Nat.ltb_lt in Hfuel. rewrite Hfuel in Hexit.
  eexists _, _, _. split; [exact Hexit|].
  split; [reflexivity|]. split; [|exact Hnow].
  destruct n; reflexivity.
Qed.

(** As long as the loop runs, the Stokes solve of pass [k] is given the
    force at the density of the temperature the pass started from. *)
Lemma stokes_force_every_pass
    (u0 : Velocity) (p0 : Pressure) (th0 : Temperature) (k fuel : nat) :
  (forall j, (j < k)%nat ->
     converged tol (pass j (initial th0)) = false) ->
  (k < fuel)%nat ->
  nth_error (snd (_solve_fixed_point fuel u0 p0 th0 tol)) (2 * k + 1) =
  Some (StokesSolve (up0 (pass k (initial th0)))
          (body_force (rho (theta0 (pass k (initial th0)))))).
Proof.
  intros Hbefore Hfuel. rewrite solve_snd.
  apply while_true_calls; assumption.
Qed.
End CouplerFacts.

(** *** Runs of the small problems *)

(** C2.  On the decoupled problem started at temperature 0, the first
    heat solve yields the candidate 10, and the Stokes solve that follows
    is given the force at density [rho(0)], the temperature the pass
    started from, not at [rho(10)].  Only the second pass, after
    [theta0.assign(theta1)], sees the density of the candidate. *)
Theorem stokes_force_at_previous_temperature :
  let run := _solve_fixed_point (C := decoupled) 5 0%Z 0%Z 0%Z tol_1em2 in
  fst run = Some (10, 0, 10)%Z /\
  candidate (initial (C := decoupled) 0%Z) = 10%Z /\
  snd run =
    [HeatSolve (C := decoupled) 0%Z 0%Z;
     StokesSolve (C := decoupled) (0, 0)%Z 0%Z;
     HeatSolve (C := decoupled) 0%Z 10%Z;
     StokesSolve (C := decoupled) (0, 0)%Z 10%Z] /\
  body_force (Collaborators := decoupled) (rho (Collaborators := decoupled) 0%Z)
  <> body_force (Collaborators := decoupled)
       (rho (Collaborators := decoupled)
          (candidate (initial (C := decoupled) 0%Z))).
Proof.
  repeat split; try (vm_compute; reflexivity).
  vm_compute. discriminate.
Qed.

(** C6 at work: the decoupled problem returns in its second pass, and
    the drifting one is still running after fifty. *)
Lemma fixed_point_exit_and_no_cap_witness :
  (forall fuel : nat,
     fst (_solve_fixed_point (C := decoupled) fuel 7%Z 7%Z 0%Z tol_1em2) =
     if (1 <? fuel)%nat then Some (10, 0, 10)%Z else None) /\
  fst (_solve_fixed_point (C := drifting) 50 7%Z 7%Z 0%Z tol_1em2) = None.
Proof.
  split.
  - intros fuel.
    apply (proj1 (fixed_point_exit_and_no_cap (C := decoupled) tol_1em2
                    7%Z 7%Z 0%Z) 1%nat).
    + intros k Hk. replace k with 0%nat by lia. vm_compute. reflexivity.
    + vm_compute. reflexivity.
  - apply (proj2 (fixed_point_exit_and_no_cap (C := drifting) tol_1em2
                    7%Z 7%Z 0%Z)).
    intros k. unfold converged, candidate. cbn.
    unfold toy_errornorm. replace (Z.abs _) with 1%Z by lia.
    vm_compute. reflexivity.
Defined.

(** C10 at work: halving from 8 with tolerance 1.5, the third pass
    passes the test with the candidate 1, and 2 is returned. *)
Lemma fixed_point_returns_previous_iterate_witness :
  exists u p theta : Z,
    fst (_solve_fixed_point (C := halving) 5 7%Z 7%Z 8%Z tol_1_5) =
      Some (u, p, theta) /\
    theta = 2%Z /\
    theta = (4 / 2)%Z /\
    SFltb (toy_errornorm theta 1) tol_1_5 = true.
Proof.
  apply (fixed_point_returns_previous_iterate (C := halving) tol_1_5
           7%Z 7%Z 8%Z 2%nat 5%nat).
  - intros k Hk.
    assert (Hc : k = 0%nat \/ k = 1%nat) by lia.
    destruct Hc as [-> | ->]; vm_compute; reflexivity.
  - vm_compute. reflexivity.
  - lia.
Defined.

(** ** The kernels in binary64 *)

Section Binary64Runs.
Local Open Scope dbl_scope.

Lemma edge_pairs_eq : edge_pairs = [(0, 1); (0, 2); (1, 2)]%nat.
Proof. reflexivity. Qed.

Lemma edge_sum_eq {T : Type} {A : Arith T} (c : Cell T) (b : T * T) :
  edge_sum c b =
  lit_0 + edge_term c b (0, 1)%nat + edge_term c b (0, 2)%nat
  + edge_term c b (1, 2)%nat.
Proof. reflexivity. Qed.

Lemma conv_norm_eq {T : Type} {A : Arith T} (b : T * T) :
  conv_norm b = fsqrt (lit_0 + fst b * fst b + snd b * snd b).
Proof. reflexivity. Qed.

(** C1, as the code has it.  For the unit right triangle and
    [b = (1,0)] the area is 0.5, the three edges contribute
    0 + 1 + 1 = 2 to [sum], and [h = 4*1*0.5/2 = 1]; in binary64 and
    in exact arithmetic alike. *)
Theorem unit_triangle_directed_diameter :
  (triangle_area (unit_triangle (T := spec_float)) = lit_0_5 /\
   map (edge_term (unit_triangle (T := spec_float)) (lit_1, lit_0))
     edge_pairs = [lit_0; lit_1; lit_1] /\
   edge_sum (unit_triangle (T := spec_float)) (lit_1, lit_0) = lit_2 /\
   conv_norm (lit_1 : spec_float, lit_0 : spec_float) = lit_1 /\
   directed_diameter (triangle_area unit_triangle)
     (unit_triangle (T := spec_float)) (lit_1, lit_0) = lit_1) /\
  (triangle_area (unit_triangle (T := R)) = (1 / 2)%R /\
   edge_sum (unit_triangle (T := R)) (1%R, 0%R) = 2%R /\
   directed_diameter (triangle_area unit_triangle)
     (unit_triangle (T := R)) (1%R, 0%R) = 1%R).
Proof.
  split; [repeat split; vm_compute; reflexivity|].
  assert (Hs : edge_sum (unit_triangle (T := R)) (1%R, 0%R) = 2%R).
  { rewrite edge_sum_eq. unfold edge_term. cbn.
    replace (0 - 0)%R with 0%R by lra.
    replace ((0 * 1 - (0 - 1) * 0))%R with 0%R by lra.
    replace ((0 - 1) * 1 - 0 * 0)%R with (-1)%R by lra.
    replace ((0 - 1) * 1 - (1 - 0) * 0)%R with (-1)%R by lra.
    rewrite Rabs_R0, (Rabs_left (-1)) by lra. lra. }
  assert (Ha : triangle_area (unit_triangle (T := R)) = (1 / 2)%R).
  { unfold triangle_area. cbn.
    replace ((1 - 0) * (1 - 0) - (0 - 0) * (0 - 0))%R with 1%R by lra.
    rewrite Rabs_R1. lra. }
  repeat split; [exact Ha | exact Hs |].
  unfold directed_diameter. rewrite Hs, Ha, conv_norm_eq. cbn.
  replace (0 + 1 * 1 + 0 * 0)%R with 1%R by lra.
  rewrite sqrt_1. lra.
Qed.

(** C1, as the specification words it: [sum] is not 1 and [h] is not 2. *)
Lemma unit_triangle_sum_not_1 :
  edge_sum (unit_triangle (T := spec_float)) (lit_1, lit_0) <> lit_1 /\
  directed_diameter (triangle_area unit_triangle)
    (unit_triangle (T := spec_float)) (lit_1, lit_0) <> lit_2.
Proof. split; vm_compute; discriminate. Qed.

(** C3.  A convection sample below [DOLFIN_EPS] in norm makes [supg]
    return the zero vector at once, but [supg2] stores 0 and goes on:
    for [v = (2^-70, 0)] it returns a [tau] close to 1/12, and for
    [v = (0, 0)] it divides 0 by 0, which fails [assert(Pe > 0.0)] or,
    without assertions, returns NaN. *)
Theorem supg2_norm_test_falls_through
    (L : Libm spec_float) (ndebug : bool) (tau0 : spec_float) :
  let D := plane_mesh (T := spec_float) in
  let tiny := (two_pow (-70), lit_0 : spec_float) in
  let none := (lit_0 : spec_float, lit_0 : spec_float) in
  (conv_norm tiny <? DOLFIN_EPS) = true /\
  supg_eval ndebug lit_1 1 unit_triangle tiny = Returned (lit_0, lit_0) /\
  supg2_eval ndebug lit_1 1 unit_triangle tiny tau0 =
    Returned (S754_finite false 6004799503160661 (-56)) /\
  (conv_norm none <? DOLFIN_EPS) = true /\
  supg_eval ndebug lit_1 1 unit_triangle none = Returned (lit_0, lit_0) /\
  supg2_eval false lit_1 1 unit_triangle none tau0 =
    AssertFailed Pe_positive /\
  supg2_eval true lit_1 1 unit_triangle none tau0 = Returned S754_nan.
Proof.
  destruct ndebug; repeat split; vm_compute; reflexivity.
Qed.

(** What [supg] does right, for any arithmetic, mesh library and cell:
    below [DOLFIN_EPS] the zero vector is returned and nothing of the
    cell is looked at. *)
Lemma supg_eval_no_convection {T : Type} {A : Arith T} {L : Libm T}
    {D : Dolfin T} (ndebug : bool) (sigma : T) (p : Z) (c : Cell T)
    (b : T * T) :
  (conv_norm b <? DOLFIN_EPS) = true ->
  supg_eval ndebug sigma p c b = Returned (lit_0, lit_0).
Proof. intros H. unfold supg_eval. rewrite H. reflexivity. Qed.

(** C5, as the specification words it: on the unit triangle with
    [v = (2^-30, 0)], [sigma = 2^-14] and [p = 1], [tau] is about
    1365; [supg] throws, [supg2] returns it. *)
Lemma supg2_returns_tau_above_1e3 :
  exists t : spec_float,
    (t >? lit_1e3) = true /\
    forall (L : Libm spec_float) (ndebug : bool) (tau0 : spec_float),
      let D := plane_mesh (T := spec_float) in
      supg2_eval ndebug (two_pow (-14)) 1 unit_triangle
        (two_pow (-30), lit_0) tau0 = Returned t /\
      supg_eval ndebug (two_pow (-14)) 1 unit_triangle
        (two_pow (-30), lit_0) = Thrown 1.
Proof.
  exists (S754_finite false 6004799503137359 (-42)).
  split; [vm_compute; reflexivity|].
  intros L ndebug tau0. destruct ndebug; split; vm_compute; reflexivity.
Qed.

(** C4, as the specification words it: on the right triangle (0,0), (2,0), (0,3)
    with [b = (6,-9)], along the hypotenuse, the computed [h] is one
    unit in the last place above the cell diameter, be it the longest
    edge or twice the circumradius.  [supg] aborts on its assertion;
    [supg2] returns. *)
Lemma supg2_continues_above_diameter :
  let c := right_triangle (T := spec_float) 2 3 in
  let b := (of_int 6 : spec_float, of_int (-9) : spec_float) in
  let h := directed_diameter (triangle_area c) c b in
  (h <=? longest_edge c) = false /\
  (h <=? circumdiameter c) = false /\
  forall (L : Libm spec_float) (tau0 : spec_float),
    (supg_eval (D := plane_mesh) false (of_int 10000000) 1 c b =
       AssertFailed h_le_diameter /\
     supg_eval (D := plane_mesh_circum) false (of_int 10000000) 1 c b =
       AssertFailed h_le_diameter) /\
    exists t : spec_float,
      supg2_eval (D := plane_mesh) false (of_int 10000000) 1 c b tau0 =
        Returned t /\
      supg2_eval (D := plane_mesh_circum) false (of_int 10000000) 1 c b
        tau0 = Returned t.
Proof.
  repeat split; try (vm_compute; reflexivity).
  eexists. split; vm_compute; reflexivity.
Qed.
End Binary64Runs.

(** ** The checks of the two kernels, for any arithmetic *)

Section Checks.
Context {T : Type} {A : Arith T} {L : Libm T}.
Local Open Scope dbl_scope.

(** Past the norm test and its assertions, [supg] throws when [tau]
    exceeds 1e3 and returns [tau*b] otherwise. *)
Lemma supg_eval_past_checks {D : Dolfin T} (ndebug : bool) (sigma : T)
    (p : Z) (c : Cell T) (b : T * T) :
  (conv_norm b <? DOLFIN_EPS) = false ->
  ndebug = true \/
  ((directed_diameter (volume c) c b <=? diameter c) = true /\
   (peclet sigma p (conv_norm b) (directed_diameter (volume c) c b)
    >? lit_0) = true) ->
  supg_eval ndebug sigma p c b =
  if tau sigma p c b >? lit_1e3 then Thrown 1
  else Returned (fst b * tau sigma p c b, snd b * tau sigma p c b).
Proof.
  intros Hn Hc. unfold supg_eval, tau. rewrite Hn.
  destruct Hc as [-> | [-> ->]]; [|destruct ndebug]; reflexivity.
Qed.

(** [supg2] returns [tau] as soon as [Pe > 0.0] holds or is not
    checked. *)
Lemma supg2_eval_returns_tau {D : Dolfin T} (ndebug : bool) (sigma : T)
    (p : Z) (c : Cell T) (v : T * T) (tau0 : T) :
  ndebug = true \/
  (peclet sigma p (conv_norm v) (directed_diameter (volume c) c v)
   >? lit_0) = true ->
  supg2_eval ndebug sigma p c v tau0 = Returned (tau sigma p c v).
Proof.
  intros Hc. unfold supg2_eval, tau.
  destruct Hc as [-> | ->]; [|destruct ndebug]; reflexivity.
Qed.

(** C5, as the code has it.  Past the norm test, a [tau] above 1e3
    makes [supg] abort: by [throw 1], unless one of its assertions has
    aborted it before; it never returns.  [supg2] has no such check (it
    is commented out) and returns [tau] whatever its size. *)
Theorem tau_bound_checked_by_supg_only {D : Dolfin T} (ndebug : bool)
    (sigma : T) (p : Z) (c : Cell T) (b : T * T) (tau0 : T) :
  ((conv_norm b <? DOLFIN_EPS) = false ->
   (tau sigma p c b >? lit_1e3) = true ->
   supg_eval ndebug sigma p c b = Thrown 1 \/
   exists k : check, supg_eval ndebug sigma p c b = AssertFailed k) /\
  (ndebug = true \/
   (peclet sigma p (conv_norm b) (directed_diameter (volume c) c b)
    >? lit_0) = true ->
   supg2_eval ndebug sigma p c b tau0 = Returned (tau sigma p c b)).
Proof.
  split; [|apply supg2_eval_returns_tau].
  intros Hn Ht. unfold tau in Ht. unfold supg_eval. cbv zeta.
  rewrite Hn.
  destruct (negb ndebug && negb (_ <=? diameter c)); [right; eauto|].
  destruct (negb ndebug && negb (_ >? lit_0)); [right; eauto|].
  rewrite Ht. left; reflexivity.
Qed.

(** [supg] with assertions aborts when the computed [h] is not at most
    the cell diameter. *)
Lemma supg_eval_checks_diameter {D : Dolfin T} (sigma : T) (p : Z)
    (c : Cell T) (b : T * T) :
  (conv_norm b <? DOLFIN_EPS) = false ->
  (directed_diameter (volume c) c b <=? diameter c) = false ->
  supg_eval false sigma p c b = AssertFailed h_le_diameter.
Proof.
  intros Hn Hh. unfold supg_eval. rewrite Hn, Hh. reflexivity.
Qed.

(** [supg2] never asks for the cell diameter. *)
Lemma supg2_eval_ignores_diameter (eps : T) (vol diam diam' : Cell T -> T)
    (ndebug : bool) (sigma : T) (p : Z) (c : Cell T) (v : T * T)
    (tau0 : T) :
  supg2_eval (D := Build_Dolfin eps vol diam) ndebug sigma p c v tau0 =
  supg2_eval (D := Build_Dolfin eps vol diam') ndebug sigma p c v tau0.
Proof. reflexivity. Qed.
End Checks.

(** C5 at work, on the input where [tau] is about 1365. *)
Lemma tau_bound_checked_by_supg_only_witness :
  let L := tanh_is S754_nan in
  let D := plane_mesh (T := spec_float) in
  let b := (two_pow (-30), lit_0 : spec_float) in
  (supg_eval false (two_pow (-14)) 1 unit_triangle b = Thrown 1 \/
   exists k : check,
     supg_eval false (two_pow (-14)) 1 unit_triangle b = AssertFailed k) /\
  supg2_eval false (two_pow (-14)) 1 unit_triangle b lit_0 =
    Returned (tau (two_pow (-14)) 1 unit_triangle b).
Proof.
  intros L D b.
  destruct (tau_bound_checked_by_supg_only (L := L) (D := D) false
              (two_pow (-14)) 1 unit_triangle b lit_0) as [H1 H2].
  split.
  - apply H1; vm_compute; reflexivity.
  - apply H2. right. vm_compute. reflexivity.
Defined.

(** ** The kernels in exact arithmetic *)

Section ExactGeometry.
Local Open Scope R_scope.

Lemma Rltb_true (a b : R) : Rltb a b = true <-> a < b.
Proof. unfold Rltb. destruct (Rlt_dec a b); split; try easy; lra. Qed.

Lemma Rltb_false (a b : R) : Rltb a b = false <-> b <= a.
Proof. unfold Rltb. destruct (Rlt_dec a b); split; try easy; lra. Qed.

Lemma Rleb_true (a b : R) : Rleb a b = true <-> a <= b.
Proof. unfold Rleb. destruct (Rle_dec a b); split; try easy; lra. Qed.

Lemma lit_0_5_exact : (lit_0_5 : R) = 1 / 2.
Proof. unfold lit_0_5, dec. cbn. lra. Qed.

Lemma lit_1em5_exact : (lit_1em5 : R) = 1 / 100000.
Proof. unfold lit_1em5, dec. cbn. lra. Qed.

Lemma lit_1e3_exact : (lit_1e3 : R) = 1000.
Proof. unfold lit_1e3, dec. cbn. lra. Qed.

Lemma norm2_nonneg (x y : R) : 0 <= norm2 x y.
Proof. apply sqrt_pos. Qed.

Lemma norm2_sqr (x y : R) : norm2 x y * norm2 x y = x * x + y * y.
Proof. apply sqrt_sqrt. nra. Qed.

Lemma norm2_scal (k x y : R) : norm2 (k * x) (k * y) = Rabs k * norm2 x y.
Proof.
  unfold norm2.
  replace (k * x * (k * x) + k * y * (k * y))
    with (Rsqr k * (x * x + y * y)) by (unfold Rsqr; ring).
  rewrite sqrt_mult; [| apply Rle_0_sqr | nra].
  rewrite sqrt_Rsqr_abs. reflexivity.
Qed.

(** Cauchy and Schwarz. *)
Lemma dot_le_norms (e0 e1 f0 f1 : R) :
  Rabs (e0 * f0 + e1 * f1) <= norm2 e0 e1 * norm2 f0 f1.
Proof.
  pose proof (norm2_nonneg e0 e1) as HE.
  pose proof (norm2_nonneg f0 f1) as HF.
  pose proof (norm2_sqr e0 e1) as HE2.
  pose proof (norm2_sqr f0 f1) as HF2.
  apply Rsqr_incr_0_var; [|apply Rmult_le_pos; assumption].
  rewrite <- Rsqr_abs. unfold Rsqr.
  replace (norm2 e0 e1 * norm2 f0 f1 * (norm2 e0 e1 * norm2 f0 f1))
    with ((norm2 e0 e1 * norm2 e0 e1) * (norm2 f0 f1 * norm2 f0 f1)) by ring.
  rewrite HE2, HF2.
  pose proof (Rle_0_sqr (e0 * f1 - e1 * f0)) as Hs. unfold Rsqr in Hs. lra.
Qed.

(** The triangle inequality, for a combination of two vectors. *)
Lemma norm2_lincomb (a b e0 e1 f0 f1 : R) :
  norm2 (a * e0 + b * f0) (a * e1 + b * f1)
  <= Rabs a * norm2 e0 e1 + Rabs b * norm2 f0 f1.
Proof.
  pose proof (norm2_nonneg e0 e1) as HE.
  pose proof (norm2_nonneg f0 f1) as HF.
  pose proof (norm2_sqr e0 e1) as HE2.
  pose proof (norm2_sqr f0 f1) as HF2.
  pose proof (Rabs_pos a) as Ha. pose proof (Rabs_pos b) as Hb.
  pose proof (dot_le_norms e0 e1 f0 f1) as Hd.
  assert (Haa : Rabs a * Rabs a = a * a)
    by (rewrite <- Rabs_mult; apply Rabs_pos_eq; nra).
  assert (Hbb : Rabs b * Rabs b = b * b)
    by (rewrite <- Rabs_mult; apply Rabs_pos_eq; nra).
  assert (Hab : a * b * (e0 * f0 + e1 * f1)
                <= Rabs a * Rabs b * (norm2 e0 e1 * norm2 f0 f1)).
  { eapply Rle_trans; [apply Rle_abs|].
    rewrite !Rabs_mult. apply Rmult_le_compat_l; [nra | exact Hd]. }
  apply Rsqr_incr_0_var; [|nra].
  unfold Rsqr. rewrite norm2_sqr. nra.
Qed.

(** Of three numbers [a], [c] and [a + c], one is the largest in
    magnitude, and it is the sum of the other two magnitudes. *)
Lemma abs_triple (a c : R) :
  Rabs (a + c) = Rabs a + Rabs c \/
  Rabs a = Rabs c + Rabs (a + c) \/
  Rabs c = Rabs a + Rabs (a + c).
Proof.
  unfold Rabs.
  destruct (Rcase_abs (a + c)), (Rcase_abs a), (Rcase_abs c); lra.
Qed.

(** For the edge vectors [u], [w] and [u + w] of a triangle, a direction
    [b] and a bound [d] on the edge lengths: the norm of [b] times four
    times the area is at most the sum of the cross products times [d]. *)
Lemma chord_bound (u0 u1 w0 w1 b0 b1 d : R) :
  norm2 u0 u1 <= d -> norm2 w0 w1 <= d -> norm2 (u0 + w0) (u1 + w1) <= d ->
  2 * (norm2 b0 b1 * Rabs (u0 * w1 - w0 * u1))
  <= (Rabs (u1 * b0 - u0 * b1)
      + Rabs ((u1 * b0 - u0 * b1) + (w1 * b0 - w0 * b1))
      + Rabs (w1 * b0 - w0 * b1)) * d.
Proof.
  intros Hu Hw Huw.
  set (a := u1 * b0 - u0 * b1). set (c := w1 * b0 - w0 * b1).
  set (X := u0 * w1 - w0 * u1).
  assert (Hd : 0 <= d) by (pose proof (norm2_nonneg u0 u1); lra).
  assert (HN : norm2 b0 b1 * Rabs X = norm2 (X * b0) (X * b1))
    by (rewrite norm2_scal; ring).
  pose proof (Rabs_pos a) as Ha. pose proof (Rabs_pos c) as Hc.
  pose proof (Rabs_pos (a + c)) as Hac.
  pose proof (norm2_nonneg u0 u1) as Hu0.
  pose proof (norm2_nonneg w0 w1) as Hw0.
  pose proof (norm2_nonneg (u0 + w0) (u1 + w1)) as Huw0.
  assert (H1 : norm2 (X * b0) (X * b1) <= (Rabs c + Rabs a) * d).
  { replace (X * b0) with (c * u0 + (- a) * w0) by (unfold X, a, c; ring).
    replace (X * b1) with (c * u1 + (- a) * w1) by (unfold X, a, c; ring).
    eapply Rle_trans; [apply norm2_lincomb|]. rewrite Rabs_Ropp. nra. }
  assert (H2 : norm2 (X * b0) (X * b1) <= (Rabs c + Rabs (a + c)) * d).
  { replace (X * b0) with (c * (u0 + w0) + (- (a + c)) * w0)
      by (unfold X, a, c; ring).
    replace (X * b1) with (c * (u1 + w1) + (- (a + c)) * w1)
      by (unfold X, a, c; ring).
    eapply Rle_trans; [apply norm2_lincomb|]. rewrite Rabs_Ropp. nra. }
  assert (H3 : norm2 (X * b0) (X * b1) <= (Rabs (a + c) + Rabs a) * d).
  { replace (X * b0) with ((a + c) * u0 + (- a) * (u0 + w0))
      by (unfold X, a, c; ring).
    replace (X * b1) with ((a + c) * u1 + (- a) * (u1 + w1))
      by (unfold X, a, c; ring).
    eapply Rle_trans; [apply norm2_lincomb|]. rewrite Rabs_Ropp. nra. }
  rewrite HN.
  destruct (abs_triple a c) as [E | [E | E]]; rewrite E in *; nra.
Qed.

Lemma conv_norm_exact (b : R * R) : conv_norm b = norm2 (fst b) (snd b).
Proof. unfold conv_norm, norm2. cbn. f_equal. ring. Qed.

Lemma edge_length_exact (p q : Point R) :
  edge_length p q = norm2 (coord0 p - coord0 q) (coord1 p - coord1 q).
Proof. reflexivity. Qed.

Lemma edge_sum_exact (c : Cell R) (b : R * R) :
  edge_sum c b = edge_term c b (0, 1)%nat + edge_term c b (0, 2)%nat
                 + edge_term c b (1, 2)%nat.
Proof. rewrite edge_sum_eq. cbn. ring. Qed.

Lemma edge_sum_nonneg (c : Cell R) (b : R * R) : 0 <= edge_sum c b.
Proof.
  rewrite edge_sum_exact. unfold edge_term. cbn.
  repeat apply Rplus_le_le_0_compat; apply Rabs_pos.
Qed.

Lemma triangle_area_nonneg (c : Cell R) : 0 <= triangle_area c.
Proof.
  unfold triangle_area. rewrite lit_0_5_exact. cbn.
  pose proof (Rabs_pos ((coord0 (vertex1 c) - coord0 (vertex0 c)) *
     (coord1 (vertex2 c) - coord1 (vertex0 c)) -
     (coord0 (vertex2 c) - coord0 (vertex0 c)) *
     (coord1 (vertex1 c) - coord1 (vertex0 c)))). lra.
Qed.

(** The chord bound, on the quantities of the kernels. *)
Lemma area_le_sum_times_diameter (c : Cell R) (b : R * R) (d : R) :
  edge_length (vertex0 c) (vertex1 c) <= d ->
  edge_length (vertex0 c) (vertex2 c) <= d ->
  edge_length (vertex1 c) (vertex2 c) <= d ->
  4 * conv_norm b * triangle_area c <= edge_sum c b * d.
Proof.
  destruct c as [[x0 y0] [x1 y1] [x2 y2]]. destruct b as [b0 b1].
  rewrite !edge_length_exact, conv_norm_exact, edge_sum_exact.
  unfold triangle_area, edge_term. rewrite lit_0_5_exact. cbn.
  intros H01 H02 H12.
  replace (x0 - x2) with ((x0 - x1) + (x1 - x2)) in * by ring.
  replace (y0 - y2) with ((y0 - y1) + (y1 - y2)) in * by ring.
  pose proof (chord_bound (x0 - x1) (y0 - y1) (x1 - x2) (y1 - y2) b0 b1 d
                H01 H12 H02) as H.
  replace ((y0 - y1 + (y1 - y2)) * b0 - (x0 - x1 + (x1 - x2)) * b1)
    with ((y0 - y1) * b0 - (x0 - x1) * b1
          + ((y1 - y2) * b0 - (x1 - x2) * b1)) by ring.
  replace ((x1 - x0) * (y2 - y0) - (x2 - x0) * (y1 - y0))
    with ((x0 - x1) * (y1 - y2) - (x1 - x2) * (y0 - y1)) by ring.
  lra.
Qed.
End ExactGeometry.

Section ExactDiameter.
Local Open Scope R_scope.

Lemma edge_length_nonneg (p q : Point R) : 0 <= edge_length p q.
Proof. rewrite edge_length_exact. apply norm2_nonneg. Qed.

(** A triangle of positive area meets every direction: [sum] is
    positive. *)
Lemma edge_sum_pos (c : Cell R) (b : R * R) :
  0 < triangle_area c -> 0 < conv_norm b -> 0 < edge_sum c b.
Proof.
  intros Ha Hb.
  pose proof (edge_sum_nonneg c b) as Hs.
  pose proof (edge_length_nonneg (vertex0 c) (vertex1 c)) as H01.
  pose proof (edge_length_nonneg (vertex0 c) (vertex2 c)) as H02.
  pose proof (edge_length_nonneg (vertex1 c) (vertex2 c)) as H12.
  set (d := edge_length (vertex0 c) (vertex1 c)
            + edge_length (vertex0 c) (vertex2 c)
            + edge_length (vertex1 c) (vertex2 c)).
  assert (H : 4 * conv_norm b * triangle_area c <= edge_sum c b * d)
    by (apply area_le_sum_times_diameter; unfold d; lra).
  destruct (Rle_lt_or_eq_dec _ _ Hs) as [Hpos | Hzero]; [exact Hpos|].
  rewrite <- Hzero in H. nra.
Qed.

(** In exact arithmetic the directed diameter of a triangle of positive
    area is at most any bound on its edge lengths. *)
Lemma directed_diameter_le (c : Cell R) (b : R * R) (d : R) :
  0 < triangle_area c -> 0 < conv_norm b ->
  edge_length (vertex0 c) (vertex1 c) <= d ->
  edge_length (vertex0 c) (vertex2 c) <= d ->
  edge_length (vertex1 c) (vertex2 c) <= d ->
  directed_diameter (triangle_area c) c b <= d.
Proof.
  intros Ha Hb H01 H02 H12.
  pose proof (edge_sum_pos c b Ha Hb) as Hs.
  pose proof (area_le_sum_times_diameter c b d H01 H02 H12) as H.
  unfold directed_diameter. cbn [of_int fmul fdiv exact].
  apply Rmult_le_reg_r with (edge_sum c b); [exact Hs|].
  unfold Rdiv. rewrite Rmult_assoc, Rinv_l by lra. lra.
Qed.

Lemma longest_edge_dominates (c : Cell R) :
  edge_length (vertex0 c) (vertex1 c) <= longest_edge c /\
  edge_length (vertex0 c) (vertex2 c) <= longest_edge c /\
  edge_length (vertex1 c) (vertex2 c) <= longest_edge c.
Proof.
  unfold longest_edge, fmax. cbn [flt exact]. unfold Rltb.
  repeat destruct (Rlt_dec _ _); lra.
Qed.

Lemma unit_triangle_area_exact :
  triangle_area (unit_triangle (T := R)) = 1 / 2.
Proof.
  unfold triangle_area. rewrite lit_0_5_exact. cbn.
  replace ((1 - 0) * (1 - 0) - (0 - 0) * (0 - 0)) with 1 by lra.
  rewrite Rabs_R1. lra.
Qed.

Lemma conv_norm_e1_exact : conv_norm (1, 0) = 1.
Proof.
  rewrite conv_norm_exact. unfold norm2. cbn.
  replace (1 * 1 + 0 * 0) with 1 by lra. apply sqrt_1.
Qed.
End ExactDiameter.

(** C4, as the code has it.  In exact arithmetic the directed diameter
    of a triangle of positive area is at most the cell diameter, for any
    flow direction of positive norm and any diameter that bounds the
    edge lengths.  [supg], compiled with assertions, aborts when the
    computed [h] fails the comparison; [supg2] makes no such check (it
    is commented out) and does not ask for the diameter at all. *)
Theorem directed_diameter_bound_checked_by_supg_only :
  (forall (D : Dolfin R) (c : Cell R) (b : R * R),
      volume c = triangle_area c ->
      (0 < triangle_area c)%R -> (0 < conv_norm b)%R ->
      (edge_length (vertex0 c) (vertex1 c) <= diameter c)%R ->
      (edge_length (vertex0 c) (vertex2 c) <= diameter c)%R ->
      (edge_length (vertex1 c) (vertex2 c) <= diameter c)%R ->
      (directed_diameter (volume c) c b <= diameter c)%R) /\
  (forall (T : Type) (A : Arith T) (L : Libm T) (D : Dolfin T)
          (sigma : T) (p : Z) (c : Cell T) (b : T * T),
      flt (conv_norm b) DOLFIN_EPS = false ->
      fle (directed_diameter (volume c) c b) (diameter c) = false ->
      supg_eval false sigma p c b = AssertFailed h_le_diameter) /\
  (forall (T : Type) (A : Arith T) (L : Libm T) (eps : T)
          (vol diam diam' : Cell T -> T) (ndebug : bool) (sigma : T)
          (p : Z) (c : Cell T) (v : T * T) (tau0 : T),
      supg2_eval (D := Build_Dolfin eps vol diam) ndebug sigma p c v tau0 =
      supg2_eval (D := Build_Dolfin eps vol diam') ndebug sigma p c v tau0).
Proof.
  split; [|split].
  - intros D c b Hv Ha Hb H01 H02 H12. rewrite Hv.
    apply directed_diameter_le; assumption.
  - intros. apply supg_eval_checks_diameter; assumption.
  - intros. reflexivity.
Qed.

(** C4 at work: the unit triangle with [b = (1,0)] in exact arithmetic,
    and the triangle (0,0), (2,0), (0,3) with [b = (6,-9)] in
    binary64. *)
Lemma directed_diameter_bound_checked_by_supg_only_witness :
  (directed_diameter (triangle_area unit_triangle)
     (unit_triangle (T := R)) (1%R, 0%R)
   <= longest_edge (unit_triangle (T := R)))%R /\
  supg_eval (L := tanh_is S754_nan) (D := plane_mesh) false
    (of_int 10000000) 1 (right_triangle (T := spec_float) 2 3)
    (of_int 6, of_int (-9)) = AssertFailed h_le_diameter.
Proof.
  destruct directed_diameter_bound_checked_by_supg_only as [H1 [H2 _]].
  split.
  - apply (H1 plane_mesh unit_triangle (1%R, 0%R)).
    + reflexivity.
    + rewrite unit_triangle_area_exact. lra.
    + rewrite conv_norm_e1_exact. lra.
    + apply longest_edge_dominates.
    + apply longest_edge_dominates.
    + apply longest_edge_dominates.
  - apply H2; vm_compute; reflexivity.
Defined.

(** ** The Peclet function in exact arithmetic *)

Section ExactXi.
Local Open Scope R_scope.

Lemma cosh_pos (x : R) : 0 < cosh x.
Proof.
  unfold cosh. pose proof (exp_pos x). pose proof (exp_pos (- x)). lra.
Qed.

Lemma sinh_pos (x : R) : 0 < x -> 0 < sinh x.
Proof. intros Hx. rewrite <- sinh_0. apply sinh_lt, Hx. Qed.

(** [x cosh x - sinh x] vanishes at 0 and has the derivative
    [x sinh x], positive right of 0. *)
Lemma sinh_lt_x_cosh (x : R) : 0 < x -> sinh x < x * cosh x.
Proof.
  intros Hx.
  destruct (MVT_cor2 (fun y => y * cosh y - sinh y) (fun y => y * sinh y)
              0 x Hx) as [c [Hc [Hc0 Hcx]]].
  - intros y _.
    replace (y * sinh y) with ((1 * cosh y + id y * sinh y) - cosh y)
      by (unfold id; ring).
    apply (derivable_pt_lim_minus (mult_fct id cosh) sinh).
    + apply derivable_pt_lim_mult;
        [apply derivable_pt_lim_id | apply derivable_pt_lim_cosh].
    + apply derivable_pt_lim_sinh.
  - rewrite sinh_0 in Hc.
    assert (H : 0 < c * sinh c * (x - 0)).
    { apply Rmult_lt_0_compat; [|lra].
      apply Rmult_lt_0_compat; [exact Hc0 | apply sinh_pos, Hc0]. }
    lra.
Qed.

Lemma tanh_pos_le (x : R) : 0 < x -> 0 < tanh x <= x.
Proof.
  intros Hx. pose proof (cosh_pos x) as Hc. pose proof (sinh_pos x Hx) as Hs.
  pose proof (sinh_lt_x_cosh x Hx) as H. unfold tanh. split.
  - apply Rdiv_lt_0_compat; assumption.
  - apply Rmult_le_reg_r with (cosh x); [exact Hc|].
    unfold Rdiv. rewrite Rmult_assoc, Rinv_l by lra. lra.
Qed.

Lemma xi_closed_exact (Pe : R) : xi_closed Pe = 1 / tanh Pe - 1 / Pe.
Proof. reflexivity. Qed.

Lemma xi_taylor_exact (Pe : R) :
  xi_taylor Pe = Pe / 3 - Pe ^ 3 / 45 + 2 * Pe ^ 5 / 945.
Proof. unfold xi_taylor, lit_3, lit_45, lit_2, lit_945. cbn. field. Qed.

(** Right of 0 the closed form is nonnegative: [tanh x <= x]. *)
Lemma xi_closed_nonneg (Pe : R) : 0 < Pe -> 0 <= xi_closed Pe.
Proof.
  intros HPe. rewrite xi_closed_exact.
  destruct (tanh_pos_le Pe HPe) as [Ht Hle].
  assert (/ Pe <= / tanh Pe) by (apply Rinv_le_contravar; assumption).
  lra.
Qed.

Lemma xi_taylor_nonneg (Pe : R) : 0 <= Pe <= 1 -> 0 <= xi_taylor Pe.
Proof.
  intros [H0 H1]. rewrite xi_taylor_exact.
  assert (H2 : 0 <= Pe ^ 2 <= 1) by nra.
  assert (H5 : 0 <= Pe ^ 5) by (apply pow_le; exact H0).
  replace (Pe ^ 3) with (Pe * Pe ^ 2) by ring. nra.
Qed.

Lemma xi_branch (Pe : R) :
  (1 / 100000 < Pe -> xi Pe = xi_closed Pe) /\
  (Pe <= 1 / 100000 -> xi Pe = xi_taylor Pe).
Proof.
  unfold xi. cbn [flt exact]. rewrite lit_1em5_exact. split; intros H.
  - rewrite (proj2 (Rltb_true _ _) H). reflexivity.
  - rewrite (proj2 (Rltb_false _ _) H). reflexivity.
Qed.

Lemma xi_nonneg (Pe : R) : 0 <= Pe -> 0 <= xi Pe.
Proof.
  intros H0. destruct (xi_branch Pe) as [Hc Ht].
  destruct (Rlt_le_dec (1 / 100000) Pe) as [H | H].
  - rewrite (Hc H). apply xi_closed_nonneg. lra.
  - rewrite (Ht H). apply xi_taylor_nonneg. lra.
Qed.

Lemma Rdiv_nonneg (a b : R) : 0 <= a -> 0 <= b -> 0 <= a / b.
Proof.
  intros Ha Hb. destruct (Rle_lt_or_eq_dec _ _ Hb) as [Hpos | <-].
  - apply Rmult_le_pos; [exact Ha | left; apply Rinv_0_lt_compat, Hpos].
  - unfold Rdiv. rewrite Rinv_0. lra.
Qed.

Lemma conv_norm_nonneg (b : R * R) : 0 <= conv_norm b.
Proof. rewrite conv_norm_exact. apply norm2_nonneg. Qed.

Lemma directed_diameter_nonneg (area : R) (c : Cell R) (b : R * R) :
  0 <= area -> 0 <= directed_diameter area c b.
Proof.
  intros Ha. unfold directed_diameter. cbn [of_int fmul fdiv exact].
  pose proof (conv_norm_nonneg b). pose proof (edge_sum_nonneg c b).
  apply Rdiv_nonneg; [nra | assumption].
Qed.

Lemma peclet_nonneg (sigma : R) (p : Z) (nrm h : R) :
  0 < sigma -> (0 < p)%Z -> 0 <= nrm -> 0 <= h -> 0 <= peclet sigma p nrm h.
Proof.
  intros Hs Hp Hn Hh. unfold peclet. rewrite lit_0_5_exact.
  cbn [of_int fmul fdiv exact].
  assert (0 < IZR p) by (apply IZR_lt; exact Hp).
  apply Rdiv_nonneg; nra.
Qed.

End ExactXi.

Section ExactTau.
Local Open Scope R_scope.

Lemma directed_diameter_pos (c : Cell R) (b : R * R) :
  0 < triangle_area c -> 0 < conv_norm b ->
  0 < directed_diameter (triangle_area c) c b.
Proof.
  intros Ha Hb. pose proof (edge_sum_pos c b Ha Hb) as Hs.
  unfold directed_diameter. cbn [of_int fmul fdiv exact].
  apply Rdiv_lt_0_compat; [|exact Hs].
  apply Rmult_lt_0_compat; [|exact Ha].
  apply Rmult_lt_0_compat; [lra | exact Hb].
Qed.

Lemma peclet_pos (sigma : R) (p : Z) (nrm h : R) :
  0 < sigma -> (0 < p)%Z -> 0 < nrm -> 0 < h -> 0 < peclet sigma p nrm h.
Proof.
  intros Hs Hp Hn Hh. unfold peclet. rewrite lit_0_5_exact.
  cbn [of_int fmul fdiv exact].
  assert (0 < IZR p) by (apply IZR_lt; exact Hp).
  apply Rdiv_lt_0_compat.
  - apply Rmult_lt_0_compat; [|exact Hh].
    apply Rmult_lt_0_compat; [lra | exact Hn].
  - apply Rmult_lt_0_compat; assumption.
Qed.

(** What [supg] returns past the norm test is [tau*b]. *)
Lemma supg_eval_returned {D : Dolfin R} (ndebug : bool) (sigma : R) (p : Z)
    (c : Cell R) (b r : R * R) :
  flt (conv_norm b) DOLFIN_EPS = false ->
  supg_eval ndebug sigma p c b = Returned r ->
  r = (fst b * tau sigma p c b, snd b * tau sigma p c b).
Proof.
  intros Hn. unfold supg_eval, tau. rewrite Hn. cbv zeta.
  destruct (negb ndebug && negb _)%bool; [discriminate|].
  destruct (negb ndebug && negb _)%bool; [discriminate|].
  destruct (flt lit_1e3 _); [discriminate|].
  intros H. inversion H. reflexivity.
Qed.
End ExactTau.




(** The formula itself does not vanish with the convection: in binary64,
    on the unit triangle with diffusivity 1 and degree 1, the sample
    [(2^-51, 0)] passes the norm test and [supg2] returns about 1/12, as
    it does for [(2^-20, 0)]. *)
Lemma tau_of_small_convection (L : Libm spec_float) (ndebug : bool)
    (tau0 : spec_float) :
  flt (conv_norm (two_pow (-51), lit_0 : spec_float))
    (DOLFIN_EPS (Dolfin := plane_mesh)) = false /\
  supg2_eval (D := plane_mesh) ndebug lit_1 1 unit_triangle
    (two_pow (-51), lit_0) tau0 =
    Returned (S754_finite false 6004799503160661 (-56)) /\
  supg2_eval (D := plane_mesh) ndebug lit_1 1 unit_triangle
    (two_pow (-20), lit_0) tau0 =
    Returned (S754_finite false 6004799503160570 (-56)).
Proof. destruct ndebug; repeat split; vm_compute; reflexivity. Qed.

(** Three distinct vertices on a line do not make a cell: along the
    line [sum] and the area both vanish, [h] is 0/0, and both kernels
    abort on an assertion (or return NaN without assertions). *)
Lemma collinear_cell_aborts (L : Libm spec_float) (tau0 : spec_float) :
  let c := mkCell (pt (T := spec_float) 0 0) (pt 1 0) (pt 2 0) in
  let b := (lit_1 : spec_float, lit_0 : spec_float) in
  directed_diameter (triangle_area c) c b = S754_nan /\
  supg_eval (D := plane_mesh) false lit_1 1 c b =
    AssertFailed h_le_diameter /\
  supg2_eval (D := plane_mesh) false lit_1 1 c b tau0 =
    AssertFailed Pe_positive /\
  supg2_eval (D := plane_mesh) true lit_1 1 c b tau0 = Returned S754_nan.
Proof. repeat split; vm_compute; reflexivity. Qed.

(** ** The two branches of [xi] at the crossover *)

Section ExpSeries.
Local Open Scope R_scope.

Lemma exp_term_nonneg (x : R) (k : nat) : 0 <= x -> 0 <= exp_term x k.
Proof.
  intros Hx. unfold exp_term. apply Rmult_le_pos.
  - left. apply Rinv_0_lt_compat, INR_fact_lt_0.
  - apply pow_le, Hx.
Qed.

Lemma exp_term_S (x : R) (k : nat) :
  exp_term x (S k) = exp_term x k * (x / INR (S k)).
Proof.
  unfold exp_term. rewrite fact_simpl, mult_INR, <- tech_pow_Rmult.
  field.
  repeat split; first [apply INR_fact_neq_0 | apply not_0_INR; discriminate].
Qed.

Lemma exp_term_halves (x : R) (k : nat) : 0 <= x <= 1 / 2 ->
  exp_term x (S k) <= exp_term x k * (1 / 2).
Proof.
  intros [H0 Hh]. rewrite exp_term_S.
  apply Rmult_le_compat_l; [apply exp_term_nonneg, H0|].
  assert (H1 : 1 <= INR (S k)) by (rewrite S_INR; pose proof (pos_INR k); lra).
  unfold Rdiv. apply Rle_trans with (x * 1); [|lra].
  apply Rmult_le_compat_l; [exact H0|].
  rewrite <- Rinv_1. apply Rinv_le_contravar; lra.
Qed.

Lemma exp_term_decay (x : R) (n k : nat) : 0 <= x <= 1 / 2 ->
  exp_term x (n + k) <= exp_term x n * (1 / 2) ^ k.
Proof.
  intros Hx. induction k as [|k IH].
  - rewrite Nat.add_0_r. simpl. lra.
  - replace (n + S k)%nat with (S (n + k)) by lia.
    eapply Rle_trans; [apply exp_term_halves, Hx|].
    simpl. nra.
Qed.

Lemma E1_S (x : R) (N : nat) : E1 x (S N) = E1 x N + exp_term x (S N).
Proof. reflexivity. Qed.

(** The tail of the series is below a geometric one. *)
Lemma E1_tail (x : R) (n N : nat) : 0 <= x <= 1 / 2 ->
  E1 x (S n + N) <= E1 x n + exp_term x (S n) * (2 - (1 / 2) ^ N).
Proof.
  intros Hx. induction N as [|N IH].
  - rewrite Nat.add_0_r, E1_S. simpl. lra.
  - replace (S n + S N)%nat with (S (S n + N)) by lia.
    rewrite E1_S.
    pose proof (exp_term_decay x (S n) (S N) Hx) as Hd.
    replace (S n + S N)%nat with (S (S n + N)) in Hd by lia.
    simpl pow in *. nra.
Qed.

Lemma E1_mono (x : R) (N k : nat) : 0 <= x -> E1 x N <= E1 x (N + k).
Proof.
  intros Hx. induction k as [|k IH].
  - rewrite Nat.add_0_r. lra.
  - replace (N + S k)%nat with (S (N + k)) by lia. rewrite E1_S.
    pose proof (exp_term_nonneg x (S (N + k)) Hx). lra.
Qed.

(** On [0, 1/2] the partial sums enclose the exponential. *)
Lemma exp_enclosure (x : R) (n : nat) : 0 <= x <= 1 / 2 ->
  E1 x n <= exp x <= E1 x n + 2 * exp_term x (S n).
Proof.
  intros Hx. split.
  - apply sum_incr with (An := fun k => / INR (fact k) * x ^ k).
    + apply E1_cvg.
    + intros k. apply (exp_term_nonneg x k). lra.
  - apply Rle_cv_lim with (Un := E1 x)
      (Vn := fun _ : nat => E1 x n + 2 * exp_term x (S n)).
    + intros N.
      eapply Rle_trans; [apply (E1_mono x N (S n)); lra|].
      replace (N + S n)%nat with (S n + N)%nat by lia.
      eapply Rle_trans; [apply E1_tail, Hx|].
      pose proof (exp_term_nonneg x (S n) (proj1 Hx)).
      assert (0 <= (1 / 2) ^ N) by (apply pow_le; lra).
      nra.
    + apply E1_cvg.
    + intros eps Heps. exists 0%nat. intros k _.
      unfold R_dist. rewrite Rminus_diag, Rabs_R0. exact Heps.
Qed.

Lemma E1_5 (x : R) : E1 x 5 = P5 x.
Proof.
  unfold E1, P5. cbn [sum_f_R0].
  change (fact 0) with 1%nat. change (fact 1) with 1%nat.
  change (fact 2) with 2%nat. change (fact 3) with 6%nat.
  change (fact 4) with 24%nat. change (fact 5) with 120%nat.
  rewrite !INR_IZR_INZ. cbn [Z.of_nat Pos.of_succ_nat Pos.succ].
  field.
Qed.

Lemma exp_term_6 (x : R) : exp_term x 6 = x ^ 6 / 720.
Proof.
  unfold exp_term. change (fact 6) with 720%nat.
  rewrite INR_IZR_INZ.
  replace (Z.of_nat 720) with 720%Z by reflexivity.
  field.
Qed.

Lemma exp_enclosure_5 (x : R) : 0 <= x <= 1 / 2 ->
  P5 x <= exp x <= P5 x + x ^ 6 / 360.
Proof.
  intros Hx. pose proof (exp_enclosure x 5 Hx) as H.
  rewrite E1_5, exp_term_6 in H. lra.
Qed.

Lemma coth_via_exp (x : R) : 0 < x ->
  1 / tanh x = (exp x * exp x + 1) / (exp x * exp x - 1).
Proof.
  intros Hx. pose proof (exp_pos x) as HE.
  assert (H1 : 1 < exp x) by (pose proof (exp_ineq1 x ltac:(lra)); lra).
  unfold tanh, sinh, cosh. rewrite exp_Ropp. field.
  repeat split; nra.
Qed.

Lemma tanh_via_exp (x : R) :
  tanh x = (exp x * exp x - 1) / (exp x * exp x + 1).
Proof.
  pose proof (exp_pos x) as HE.
  unfold tanh, sinh, cosh. rewrite exp_Ropp. field.
  repeat split; nra.
Qed.

(** At 1e-5 the closed form lies within the relative distance 1e-15 of
    the Taylor polynomial. *)
Lemma xi_closed_crossover_bounds :
  let x := 1 / 100000 in
  let T := x / 3 - x ^ 3 / 45 + 2 * x ^ 5 / 945 in
  T * (1 - 1 / 10 ^ 15) <= 1 / tanh x - 1 / x <= T * (1 + 1 / 10 ^ 15).
Proof.
  intros x T.
  assert (Hx : 0 < x) by (unfold x; lra).
  rewrite (coth_via_exp x Hx).
  destruct (exp_enclosure_5 x) as [Hlo Hhi]; [unfold x; lra|].
  set (E := exp x) in *.
  assert (HE1 : 1 < P5 x) by (unfold P5, x; lra).
  set (hi := P5 x + x ^ 6 / 360) in *. set (lo := P5 x) in *.
  assert (HY : lo * lo <= E * E <= hi * hi)
    by (split; apply Rmult_le_compat; lra).
  set (Y := E * E) in *.
  assert (HY1 : 0 < Y - 1).
  { assert (1 * 1 < lo * lo) by (apply Rmult_le_0_lt_compat; lra). lra. }
  split.
  - apply Rplus_le_reg_r with (1 / x).
    replace ((Y + 1) / (Y - 1) - 1 / x + 1 / x)
      with ((Y + 1) / (Y - 1)) by ring.
    apply Rmult_le_reg_r with (Y - 1); [exact HY1|].
    replace ((Y + 1) / (Y - 1) * (Y - 1)) with (Y + 1) by (field; lra).
    unfold T, hi, lo, P5, x in *. lra.
  - apply Rplus_le_reg_r with (1 / x).
    replace ((Y + 1) / (Y - 1) - 1 / x + 1 / x)
      with ((Y + 1) / (Y - 1)) by ring.
    apply Rmult_le_reg_r with (Y - 1); [exact HY1|].
    replace ((Y + 1) / (Y - 1) * (Y - 1)) with (Y + 1) by (field; lra).
    unfold T, hi, lo, P5, x in *. lra.
Qed.

(** The double of mantissa [tanh_1em5_mantissa] at exponent -69 is the
    one nearest to the hyperbolic tangent of the double 1.0e-5, which
    is 5902958103587057 * 2^-69. *)
Lemma tanh_1em5_nearest :
  (lit_1em5 : spec_float) = finite64 5902958103587057 (-69) /\
  (IZR tanh_1em5_mantissa - 1 / 2) / 2 ^ 69
  < tanh (5902958103587057 / 2 ^ 69)
  < (IZR tanh_1em5_mantissa + 1 / 2) / 2 ^ 69.
Proof.
  split; [vm_compute; reflexivity|].
  unfold tanh_1em5_mantissa.
  set (x := 5902958103587057 / 2 ^ 69).
  rewrite tanh_via_exp.
  destruct (exp_enclosure_5 x) as [Hlo Hhi]; [unfold x; lra|].
  set (E := exp x) in *.
  assert (HE1 : 1 < P5 x) by (unfold P5, x; lra).
  set (hi := P5 x + x ^ 6 / 360) in *. set (lo := P5 x) in *.
  assert (HY : lo * lo <= E * E <= hi * hi)
    by (split; apply Rmult_le_compat; lra).
  set (Y := E * E) in *.
  assert (HY1 : 0 < Y + 1) by nra.
  split.
  - apply Rmult_lt_reg_r with (Y + 1); [exact HY1|].
    replace ((Y - 1) / (Y + 1) * (Y + 1)) with (Y - 1) by (field; lra).
    unfold hi, lo, P5, x in *. lra.
  - apply Rmult_lt_reg_r with (Y + 1); [exact HY1|].
    replace ((Y - 1) / (Y + 1) * (Y + 1)) with (Y - 1) by (field; lra).
    unfold hi, lo, P5, x in *. lra.
Qed.
End ExpSeries.

(** C7, as the code has it.  [xi] is the closed form
    [1/tanh(Pe) - 1/Pe] above 1e-5 and the Taylor polynomial at and
    below it; in exact arithmetic the two agree at 1e-5 to within the
    relative error 1e-12, measured against either. *)
Theorem peclet_function_branches_agree_exactly :
  (forall Pe : R, (lit_1em5 < Pe)%R -> xi Pe = (1 / tanh Pe - 1 / Pe)%R) /\
  (forall Pe : R, (Pe <= lit_1em5)%R ->
     xi Pe = (Pe / 3 - Pe ^ 3 / 45 + 2 * Pe ^ 5 / 945)%R) /\
  (Rabs (xi_closed (lit_1em5 : R) - xi_taylor (lit_1em5 : R))
   <= 1 / 10 ^ 12 * Rabs (xi_taylor (lit_1em5 : R)))%R /\
  (Rabs (xi_closed (lit_1em5 : R) - xi_taylor (lit_1em5 : R))
   <= 1 / 10 ^ 12 * Rabs (xi_closed (lit_1em5 : R)))%R.
Proof.
  split; [|split].
  - intros Pe H. rewrite lit_1em5_exact in H.
    rewrite (proj1 (xi_branch Pe) H). apply xi_closed_exact.
  - intros Pe H. rewrite lit_1em5_exact in H.
    rewrite (proj2 (xi_branch Pe) H). apply xi_taylor_exact.
  - rewrite xi_closed_exact, xi_taylor_exact, lit_1em5_exact.
    pose proof xi_closed_crossover_bounds as H. cbv zeta in H.
    set (C := (1 / tanh (1 / 100000) - 1 / (1 / 100000))%R) in *.
    set (T := (1 / 100000 / 3 - (1 / 100000) ^ 3 / 45
               + 2 * (1 / 100000) ^ 5 / 945)%R) in *.
    assert (HT : (0 < T)%R) by (unfold T; lra).
    assert (HC : (0 < C)%R) by nra.
    rewrite (Rabs_pos_eq T), (Rabs_pos_eq C) by lra.
    split; apply Rabs_le; nra.
Qed.

(** C7 at work: [xi] at 1 and at 1e-5. *)
Lemma peclet_function_branches_agree_exactly_witness :
  xi 1%R = (1 / tanh 1 - 1 / 1)%R /\
  xi (1 / 100000)%R =
    (1 / 100000 / 3 - (1 / 100000) ^ 3 / 45 + 2 * (1 / 100000) ^ 5 / 945)%R.
Proof.
  destruct peclet_function_branches_agree_exactly as [H1 [H2 _]].
  split.
  - apply H1. rewrite lit_1em5_exact. lra.
  - apply H2. rewrite lit_1em5_exact. lra.
Defined.

Lemma Zrange_In (lo : Z) (n : nat) (m : Z) :
  (lo <= m < lo + Z.of_nat n)%Z -> In m (Zrange lo n).
Proof.
  intros H. unfold Zrange. apply in_map_iff.
  exists (Z.to_nat (m - lo)). split; [lia|].
  apply in_seq. lia.
Qed.

(** C7, as the specification words it.  In binary64 the closed form at the double
    1.0e-5 is a difference of two numbers near 1e5 and carries their
    rounding: with the correctly rounded [tanh] it is off the Taylor
    branch by more than 1e-7, and no value of [tanh] within 1000 units
    in the last place of the correct one brings the two branches within
    1e-12 of each other. *)
Lemma closed_form_off_at_crossover_in_binary64 :
  branches_differ (1 # 10000000) tanh_1em5_mantissa = true /\
  ~ exists m : Z,
      (Z.abs (m - tanh_1em5_mantissa) <= 1000)%Z /\
      agree_within (1 # 1000000000000)
        (xi_closed (L := tanh_is (finite64 m (-69))) lit_1em5)
        (xi_taylor (lit_1em5 : spec_float)) = true.
Proof.
  split; [vm_compute; reflexivity|].
  intros [m [Hm Ha]].
  assert (Hall : forallb (branches_differ (1 # 1000000000000))
                   (Zrange (tanh_1em5_mantissa - 1000) 2001) = true)
    by (vm_compute; reflexivity).
  rewrite forallb_forall in Hall.
  assert (Hin : In m (Zrange (tanh_1em5_mantissa - 1000) 2001)).
  { apply Zrange_In. change (Z.of_nat 2001) with 2001%Z. lia. }
  specialize (Hall m Hin).
  unfold branches_differ in Hall. rewrite Ha in Hall. discriminate.
Qed.

(** ** More on the kernels in exact arithmetic *)

Section ExactKernelFacts.
Local Open Scope R_scope.

(** X1.  The three edge terms are the magnitudes of [a], [a + c] and
    [c] for two numbers [a] and [c], so their sum is twice the largest
    of them. *)
Theorem edge_sum_twice_largest (c : Cell R) (b : R * R) :
  edge_sum c b =
  2 * Rmax (Rmax (edge_term c b (0, 1)%nat) (edge_term c b (0, 2)%nat))
        (edge_term c b (1, 2)%nat).
Proof.
  rewrite edge_sum_exact. unfold edge_term.
  destruct c as [[x0 y0] [x1 y1] [x2 y2]]. destruct b as [b0 b1]. cbn.
  set (a := (y0 - y1) * b0 - (x0 - x1) * b1).
  set (d := (y1 - y2) * b0 - (x1 - x2) * b1).
  replace ((y0 - y2) * b0 - (x0 - x2) * b1) with (a + d)
    by (unfold a, d; ring).
  pose proof (Rabs_pos a). pose proof (Rabs_pos d).
  pose proof (Rabs_pos (a + d)).
  unfold Rmax.
  destruct (abs_triple a d) as [E | [E | E]];
    repeat destruct (Rle_dec _ _); lra.
Qed.

Lemma conv_norm_scale (k : R) (b : R * R) :
  conv_norm (k * fst b, k * snd b) = Rabs k * conv_norm b.
Proof. rewrite !conv_norm_exact. cbn. apply norm2_scal. Qed.

Lemma edge_sum_scale (k : R) (c : Cell R) (b : R * R) :
  edge_sum c (k * fst b, k * snd b) = Rabs k * edge_sum c b.
Proof.
  rewrite !edge_sum_exact. unfold edge_term. cbn.
  assert (H : forall e0 e1 : R,
             Rabs (e1 * (k * fst b) - e0 * (k * snd b))
             = Rabs k * Rabs (e1 * fst b - e0 * snd b)).
  { intros e0 e1. rewrite <- Rabs_mult. f_equal. ring. }
  rewrite !H. ring.
Qed.

(** X2.  The directed diameter depends on the direction of [b] only. *)
Theorem directed_diameter_scale (k area : R) (c : Cell R) (b : R * R) :
  k <> 0 ->
  directed_diameter area c (k * fst b, k * snd b) =
  directed_diameter area c b.
Proof.
  intros Hk. unfold directed_diameter. cbn [of_int fmul fdiv exact].
  rewrite conv_norm_scale, edge_sum_scale.
  assert (Hk' : Rabs k <> 0) by (apply Rabs_no_R0, Hk).
  destruct (Req_dec (edge_sum c b) 0) as [H0 | H0].
  - rewrite H0, Rmult_0_r, !Rdiv_0_r. reflexivity.
  - field. split; assumption.
Qed.
End ExactKernelFacts.

(** At [k = 2], on the unit triangle. *)
Lemma directed_diameter_scale_witness :
  directed_diameter (1 / 2)%R (unit_triangle (T := R))
    (2 * fst (1, 0), 2 * snd (1, 0))%R
  = directed_diameter (1 / 2)%R (unit_triangle (T := R)) (1, 0)%R.
Proof.
  apply (directed_diameter_scale 2 (1 / 2) unit_triangle (1, 0)%R). lra.
Defined.

Section ExactXiBounds.
Local Open Scope R_scope.

Lemma cosh_ge_1 (x : R) : 1 <= cosh x.
Proof.
  unfold cosh. rewrite exp_Ropp. pose proof (exp_pos x) as HE.
  apply Rmult_le_reg_r with (2 * exp x); [lra|].
  replace ((exp x + / exp x) / 2 * (2 * exp x)) with (exp x * exp x + 1)
    by (field; lra).
  pose proof (Rle_0_sqr (exp x - 1)) as Hs. unfold Rsqr in Hs. lra.
Qed.

Lemma x_le_sinh (x : R) : 0 <= x -> x <= sinh x.
Proof.
  intros [Hx | <-]; [|rewrite sinh_0; lra].
  destruct (MVT_cor2 (fun y => sinh y - y) (fun y => cosh y - 1) 0 x Hx)
    as [c [Hc [Hc0 Hcx]]].
  - intros y _.
    apply (derivable_pt_lim_minus sinh id).
    + apply derivable_pt_lim_sinh.
    + apply derivable_pt_lim_id.
  - rewrite sinh_0 in Hc. pose proof (cosh_ge_1 c). nra.
Qed.

Lemma coth_exact (x : R) : 0 < x -> 1 / tanh x = cosh x / sinh x.
Proof.
  intros Hx. pose proof (cosh_pos x). pose proof (sinh_pos x Hx).
  unfold tanh. field. split; lra.
Qed.

Lemma cosh_minus_sinh (x : R) : cosh x - sinh x = exp (- x).
Proof. unfold cosh, sinh. field. Qed.

Lemma exp_neg_le_1 (x : R) : 0 <= x -> exp (- x) <= 1.
Proof.
  intros Hx. rewrite exp_Ropp. pose proof (exp_ineq1_le x).
  rewrite <- Rinv_1. apply Rinv_le_contravar; lra.
Qed.

(** The closed form stays below 1 ... *)
Lemma xi_closed_le_1 (x : R) : 0 < x -> xi_closed x <= 1.
Proof.
  intros Hx. rewrite xi_closed_exact, (coth_exact x Hx).
  pose proof (sinh_pos x Hx) as Hs. pose proof (cosh_pos x) as Hc.
  pose proof (x_le_sinh x ltac:(lra)) as Hxs.
  pose proof (cosh_minus_sinh x) as Hd.
  pose proof (exp_neg_le_1 x ltac:(lra)) as He.
  pose proof (exp_pos (- x)) as Hp.
  apply Rmult_le_reg_r with (x * sinh x);
    [apply Rmult_lt_0_compat; assumption|].
  replace ((cosh x / sinh x - 1 / x) * (x * sinh x))
    with (x * cosh x - sinh x) by (field; split; lra).
  assert (x * (cosh x - sinh x) <= sinh x) by (rewrite Hd; nra).
  nra.
Qed.

(** ... and below a third of its argument. *)
Lemma xi_closed_le_third (x : R) : 0 < x -> xi_closed x <= x / 3.
Proof.
  intros Hx. rewrite xi_closed_exact, (coth_exact x Hx).
  pose proof (sinh_pos x Hx) as Hs. pose proof (cosh_pos x) as Hc.
  destruct (MVT_cor2
              (fun y => y * y * sinh y - 3 * (y * cosh y) + 3 * sinh y)
              (fun y => y * (y * cosh y - sinh y)) 0 x Hx)
    as [c [Heq [Hc0 Hcx]]].
  - intros y _.
    replace (y * (y * cosh y - sinh y))
      with (((1 * id y + id y * 1) * sinh y + mult_fct id id y * cosh y)
            - 3 * (1 * cosh y + id y * sinh y) + 3 * cosh y)
      by (unfold mult_fct, id; ring).
    apply (derivable_pt_lim_plus
             (minus_fct (mult_fct (mult_fct id id) sinh)
                (mult_real_fct 3 (mult_fct id cosh)))
             (mult_real_fct 3 sinh)).
    + apply derivable_pt_lim_minus.
      * apply derivable_pt_lim_mult; [|apply derivable_pt_lim_sinh].
        apply derivable_pt_lim_mult; apply derivable_pt_lim_id.
      * apply derivable_pt_lim_scal.
        apply derivable_pt_lim_mult;
          [apply derivable_pt_lim_id | apply derivable_pt_lim_cosh].
    + apply derivable_pt_lim_scal, derivable_pt_lim_sinh.
  - rewrite sinh_0 in Heq.
    pose proof (sinh_lt_x_cosh c Hc0) as Hpos.
    assert (H : 0 <= c * (c * cosh c - sinh c) * (x - 0)).
    { apply Rmult_le_pos; [|lra]. apply Rmult_le_pos; lra. }
    apply Rmult_le_reg_r with (3 * (x * sinh x));
      [apply Rmult_lt_0_compat; [lra|apply Rmult_lt_0_compat; assumption]|].
    replace ((cosh x / sinh x - 1 / x) * (3 * (x * sinh x)))
      with (3 * (x * cosh x) - 3 * sinh x) by (field; split; lra).
    replace (x / 3 * (3 * (x * sinh x))) with (x * x * sinh x) by field.
    lra.
Qed.

Lemma xi_taylor_le (x : R) : 0 <= x <= 1 / 100000 ->
  xi_taylor x <= x / 3 /\ xi_taylor x <= 1.
Proof.
  intros [H0 H1]. rewrite xi_taylor_exact.
  assert (H2 : 0 <= x ^ 2 <= 1) by nra.
  assert (H3 : 0 <= x ^ 3) by (apply pow_le; exact H0).
  assert (H5 : x ^ 5 <= x ^ 3).
  { replace (x ^ 5) with (x ^ 3 * x ^ 2) by ring. nra. }
  split; lra.
Qed.

Lemma xi_le (Pe : R) : 0 <= Pe -> xi Pe <= 1 /\ xi Pe <= Pe / 3.
Proof.
  intros H0. destruct (xi_branch Pe) as [Hc Ht].
  destruct (Rlt_le_dec (1 / 100000) Pe) as [H | H].
  - rewrite (Hc H). split.
    + apply xi_closed_le_1. lra.
    + apply xi_closed_le_third. lra.
  - rewrite (Ht H). destruct (xi_taylor_le Pe); [lra|]. split; assumption.
Qed.
(** X3.  In exact arithmetic the upwind function [xi], as the kernels
    select its branches, stays between 0 and 1 and below a third of
    its argument, for every Peclet number that is not negative. *)
Theorem xi_range (Pe : R) :
  0 <= Pe -> 0 <= xi Pe <= 1 /\ xi Pe <= Pe / 3.
Proof.
  intros H. destruct (xi_le Pe H) as [H1 H3].
  pose proof (xi_nonneg Pe H) as H0. repeat split; assumption.
Qed.
End ExactXiBounds.

Lemma xi_range_witness : (0 <= xi 1 <= 1 /\ xi 1 <= 1 / 3)%R.
Proof. apply (xi_range 1). lra. Defined.

Section ExactInvariance.
Local Open Scope R_scope.

Lemma Rabs_eq_or_opp (x y : R) : x = y \/ x = - y -> Rabs x = Rabs y.
Proof. intros [-> | ->]; [reflexivity | apply Rabs_Ropp]. Qed.

Lemma triangle_area_invariant (c : Cell R) (dx dy : R) :
  triangle_area (swap01 c) = triangle_area c /\
  triangle_area (rotate c) = triangle_area c /\
  triangle_area (translate dx dy c) = triangle_area c.
Proof.
  destruct c as [[x0 y0] [x1 y1] [x2 y2]].
  unfold triangle_area, swap01, rotate, translate. cbn.
  repeat split; f_equal; apply Rabs_eq_or_opp;
    first [left; ring | right; ring].
Qed.

Lemma edge_sum_invariant (c : Cell R) (b : R * R) (dx dy : R) :
  edge_sum (swap01 c) b = edge_sum c b /\
  edge_sum (rotate c) b = edge_sum c b /\
  edge_sum (translate dx dy c) b = edge_sum c b.
Proof.
  destruct c as [[x0 y0] [x1 y1] [x2 y2]]. destruct b as [b0 b1].
  rewrite !edge_sum_exact. unfold edge_term, swap01, rotate, translate. cbn.
  assert (H10 : Rabs ((y1 - y0) * b0 - (x1 - x0) * b1)
                = Rabs ((y0 - y1) * b0 - (x0 - x1) * b1))
    by (apply Rabs_eq_or_opp; right; ring).
  assert (H20 : Rabs ((y2 - y0) * b0 - (x2 - x0) * b1)
                = Rabs ((y0 - y2) * b0 - (x0 - x2) * b1))
    by (apply Rabs_eq_or_opp; right; ring).
  repeat split.
  - rewrite H10. ring.
  - rewrite H10, H20. ring.
  - replace (y0 + dy - (y1 + dy)) with (y0 - y1) by ring.
    replace (x0 + dx - (x1 + dx)) with (x0 - x1) by ring.
    replace (y0 + dy - (y2 + dy)) with (y0 - y2) by ring.
    replace (x0 + dx - (x2 + dx)) with (x0 - x2) by ring.
    replace (y1 + dy - (y2 + dy)) with (y1 - y2) by ring.
    replace (x1 + dx - (x2 + dx)) with (x1 - x2) by ring.
    reflexivity.
Qed.

(** X4.  In exact arithmetic the directed diameter does not depend on
    how the vertices of the cell are numbered, nor on where the cell
    lies. *)
Theorem directed_diameter_invariant (c : Cell R) (b : R * R) (dx dy : R) :
  directed_diameter (triangle_area (swap01 c)) (swap01 c) b =
    directed_diameter (triangle_area c) c b /\
  directed_diameter (triangle_area (rotate c)) (rotate c) b =
    directed_diameter (triangle_area c) c b /\
  directed_diameter (triangle_area (translate dx dy c)) (translate dx dy c) b =
    directed_diameter (triangle_area c) c b.
Proof.
  destruct (triangle_area_invariant c dx dy) as [A1 [A2 A3]].
  destruct (edge_sum_invariant c b dx dy) as [S1 [S2 S3]].
  unfold directed_diameter. rewrite A1, A2, A3, S1, S2, S3. auto.
Qed.
End ExactInvariance.

Section ExactTauBounds.
Local Open Scope R_scope.
Context (D : Dolfin R) (sigma : R) (p : Z) (c : Cell R).
Hypothesis Hvol : volume c = triangle_area c.
Hypothesis Harea : 0 < triangle_area c.
Hypothesis Hsigma : 0 < sigma.
Hypothesis Hp : (0 < p)%Z.
Hypothesis Heps : 0 < DOLFIN_EPS.

Lemma tau_bounds (b : R * R) :
  flt (conv_norm b) DOLFIN_EPS = false ->
  let h := directed_diameter (volume c) c b in
  0 <= tau sigma p c b /\
  tau sigma p c b * conv_norm b <= h / (2 * IZR p) /\
  tau sigma p c b <= h * h / (12 * (IZR p * IZR p) * sigma).
Proof.
  intros Hb h.
  assert (Hn : 0 < conv_norm b) by (apply Rltb_false in Hb; lra).
  assert (Hh : 0 < h).
  { unfold h. rewrite Hvol. apply directed_diameter_pos; assumption. }
  assert (HP : 0 < IZR p) by (apply IZR_lt; exact Hp).
  set (Pe := peclet sigma p (conv_norm b) h).
  assert (HPe : 0 < Pe) by (apply peclet_pos; assumption).
  destruct (xi_le Pe ltac:(lra)) as [H1 H3].
  pose proof (xi_nonneg Pe ltac:(lra)) as H0.
  assert (Etau : tau sigma p c b
                 = h * xi Pe / (2 * (IZR p * conv_norm b))).
  { unfold tau, tau_of. fold h. fold Pe. rewrite lit_0_5_exact.
    cbn [of_int fmul fdiv exact]. field. split; lra. }
  assert (EPe : Pe = conv_norm b * h / (2 * (IZR p * sigma))).
  { unfold Pe, peclet. rewrite lit_0_5_exact.
    cbn [of_int fmul fdiv exact]. field. split; lra. }
  assert (Hden : 0 < 2 * (IZR p * conv_norm b)) by nra.
  split; [|split].
  - rewrite Etau. apply Rdiv_nonneg; nra.
  - rewrite Etau.
    replace (h * xi Pe / (2 * (IZR p * conv_norm b)) * conv_norm b)
      with (h * xi Pe / (2 * IZR p)) by (field; split; lra).
    apply Rmult_le_compat_r; [left; apply Rinv_0_lt_compat; lra|]. nra.
  - rewrite Etau.
    apply Rle_trans with (h * (Pe / 3) / (2 * (IZR p * conv_norm b))).
    + apply Rmult_le_compat_r; [left; apply Rinv_0_lt_compat; lra|]. nra.
    + rewrite EPe. right. field. repeat split; lra.
Qed.
End ExactTauBounds.

Section ExactOutputBounds.
Local Open Scope R_scope.

Lemma abs_le_conv_norm (b : R * R) :
  Rabs (fst b) <= conv_norm b /\ Rabs (snd b) <= conv_norm b.
Proof.
  rewrite conv_norm_exact.
  pose proof (norm2_nonneg (fst b) (snd b)) as Hn.
  pose proof (norm2_sqr (fst b) (snd b)) as Hs.
  split; apply Rsqr_incr_0_var; try exact Hn;
    rewrite <- Rsqr_abs; unfold Rsqr; nra.
Qed.

(** X5.  In exact arithmetic, on a triangle of positive area whose
    edges the cell diameter bounds, with positive diffusivity and
    degree: [tau] times the norm of [b] is at most [h / (2 p)], and
    every component of what [supg] returns is at most half the cell
    diameter in magnitude, whatever the convection sample. *)
Theorem supg_output_within_half_diameter
    (D : Dolfin R) (sigma : R) (p : Z) (c : Cell R)
    (Hvol : volume c = triangle_area c)
    (Harea : 0 < triangle_area c)
    (Hsigma : 0 < sigma) (Hp : (0 < p)%Z)
    (Heps : 0 < DOLFIN_EPS)
    (H01 : edge_length (vertex0 c) (vertex1 c) <= diameter c)
    (H02 : edge_length (vertex0 c) (vertex2 c) <= diameter c)
    (H12 : edge_length (vertex1 c) (vertex2 c) <= diameter c)
    (b : R * R) :
  (flt (conv_norm b) DOLFIN_EPS = false ->
   tau sigma p c b * conv_norm b
   <= directed_diameter (volume c) c b / (2 * IZR p)) /\
  (forall (ndebug : bool) (r : R * R),
      supg_eval ndebug sigma p c b = Returned r ->
      Rabs (fst r) <= diameter c / 2 /\ Rabs (snd r) <= diameter c / 2).
Proof.
  assert (Hd : 0 <= diameter c).
  { pose proof (edge_length_nonneg (vertex0 c) (vertex1 c)). lra. }
  assert (HP : 1 <= IZR p) by (apply IZR_le; lia).
  split.
  - intros Hb. apply (tau_bounds D sigma p c); assumption.
  - intros ndebug r Hr.
    destruct (flt (conv_norm b) DOLFIN_EPS) eqn:Hb.
    + rewrite (supg_eval_no_convection ndebug sigma p c b Hb) in Hr.
      inversion Hr. cbn. rewrite Rabs_R0. lra.
    + destruct (tau_bounds D sigma p c Hvol Harea Hsigma Hp Heps b Hb)
        as [H0 [Hn _]].
      rewrite (supg_eval_returned ndebug sigma p c b r Hb Hr).
      cbn [fst snd fmul exact].
      assert (Hn0 : 0 < conv_norm b) by (apply Rltb_false in Hb; lra).
      pose proof (directed_diameter_le c b (diameter c) Harea Hn0
                    H01 H02 H12) as Hh.
      rewrite <- Hvol in Hh.
      assert (Hhp : directed_diameter (volume c) c b / (2 * IZR p)
                    <= diameter c / 2).
      { apply Rle_trans with (diameter c / (2 * IZR p)).
        - apply Rmult_le_compat_r;
            [left; apply Rinv_0_lt_compat; lra | exact Hh].
        - apply Rmult_le_compat_l; [exact Hd|].
          apply Rinv_le_contravar; lra. }
      destruct (abs_le_conv_norm b) as [A0 A1].
      rewrite !Rabs_mult, (Rabs_pos_eq (tau sigma p c b)) by exact H0.
      split; nra.
Qed.

(** X6.  In exact arithmetic, under the same conditions, [tau] is at
    most [h^2 / (12 p^2 sigma)]; on a cell whose squared diameter is at
    most [12000 p^2 sigma], [supg] never throws. *)
Theorem supg_tau_diffusive_bound
    (D : Dolfin R) (sigma : R) (p : Z) (c : Cell R)
    (Hvol : volume c = triangle_area c)
    (Harea : 0 < triangle_area c)
    (Hsigma : 0 < sigma) (Hp : (0 < p)%Z)
    (Heps : 0 < DOLFIN_EPS)
    (H01 : edge_length (vertex0 c) (vertex1 c) <= diameter c)
    (H02 : edge_length (vertex0 c) (vertex2 c) <= diameter c)
    (H12 : edge_length (vertex1 c) (vertex2 c) <= diameter c)
    (b : R * R) :
  (flt (conv_norm b) DOLFIN_EPS = false ->
   tau sigma p c b
   <= directed_diameter (volume c) c b * directed_diameter (volume c) c b
      / (12 * (IZR p * IZR p) * sigma)) /\
  (diameter c * diameter c <= 12000 * (IZR p * IZR p) * sigma ->
   forall (ndebug : bool) (code : Z),
     supg_eval ndebug sigma p c b <> Thrown code).
Proof.
  assert (HP : 0 < IZR p) by (apply IZR_lt; exact Hp).
  split.
  - intros Hb. apply (tau_bounds D sigma p c); assumption.
  - intros Hsmall ndebug code.
    destruct (flt (conv_norm b) DOLFIN_EPS) eqn:Hb.
    + rewrite (supg_eval_no_convection ndebug sigma p c b Hb). discriminate.
    + destruct (tau_bounds D sigma p c Hvol Harea Hsigma Hp Heps b Hb)
        as [_ [_ Ht]].
      assert (Hn0 : 0 < conv_norm b) by (apply Rltb_false in Hb; lra).
      pose proof (directed_diameter_le c b (diameter c) Harea Hn0
                    H01 H02 H12) as Hh.
      pose proof (directed_diameter_pos c b Harea Hn0) as Hh0.
      rewrite <- Hvol in Hh, Hh0.
      set (h := directed_diameter (volume c) c b) in *.
      assert (Htau : tau sigma p c b <= 1000).
      { eapply Rle_trans; [exact Ht|].
        assert (Hden : 0 < 12 * (IZR p * IZR p) * sigma).
        { apply Rmult_lt_0_compat; [|exact Hsigma].
          apply Rmult_lt_0_compat; [lra|].
          apply Rmult_lt_0_compat; exact HP. }
        apply Rmult_le_reg_r with (12 * (IZR p * IZR p) * sigma);
          [exact Hden|].
        unfold Rdiv. rewrite Rmult_assoc, Rinv_l by lra.
        assert (h * h <= diameter c * diameter c) by nra. lra. }
      assert (Hno : flt lit_1e3 (tau sigma p c b) = false).
      { apply Rltb_false. rewrite lit_1e3_exact. exact Htau. }
      unfold supg_eval. rewrite Hb. cbv zeta. unfold tau in Hno.
      destruct (negb ndebug && negb _)%bool; [discriminate|].
      destruct (negb ndebug && negb _)%bool; [discriminate|].
      rewrite Hno. discriminate.
Qed.
End ExactOutputBounds.

(** ** The two kernels side by side *)

(** X7.  In any arithmetic: when [supg] returns a vector past the norm
    test, [supg2] returns too, and the vector is the convection sample
    scaled by the [tau] that [supg2] returns. *)
Theorem supg_returns_sample_times_supg2
    {T : Type} {A : Arith T} {L : Libm T} {D : Dolfin T}
    (ndebug : bool) (sigma : T) (p : Z) (c : Cell T) (b r : T * T)
    (tau0 : T) :
  flt (conv_norm b) DOLFIN_EPS = false ->
  supg_eval ndebug sigma p c b = Returned r ->
  exists t : T,
    supg2_eval ndebug sigma p c b tau0 = Returned t /\
    flt lit_1e3 t = false /\
    r = (fmul (fst b) t, fmul (snd b) t).
Proof.
  intros Hn. unfold supg_eval, supg2_eval. rewrite Hn. cbv zeta.
  destruct (negb ndebug && negb (fle _ _))%bool; [discriminate|].
  destruct (negb ndebug && negb (flt lit_0 _))%bool; [discriminate|].
  destruct (flt lit_1e3 _) eqn:Ht; [discriminate|].
  intros H. inversion H. eexists. split; [reflexivity|].
  split; [exact Ht | reflexivity].
Qed.

(** ** Not-a-number in the convection sample *)

Section NaNSample.
Local Open Scope dbl_scope.

Lemma SFadd_nan_r (x : spec_float) : SFadd prec64 emax64 x S754_nan = S754_nan.
Proof. destruct x; reflexivity. Qed.

Lemma SFmul_nan_r (x : spec_float) : SFmul prec64 emax64 x S754_nan = S754_nan.
Proof. destruct x; reflexivity. Qed.

Lemma SFltb_nan_r (x : spec_float) : SFltb x S754_nan = false.
Proof. destruct x as [s|s| |s m e]; try destruct s; reflexivity. Qed.

Lemma conv_norm_nan (b : spec_float * spec_float) :
  fst b = S754_nan \/ snd b = S754_nan -> conv_norm b = S754_nan.
Proof.
  destruct b as [b0 b1]. unfold conv_norm. cbn [fst snd fold_left].
  intros [-> | ->].
  - reflexivity.
  - cbn [fadd fmul binary64]. rewrite SFmul_nan_r, SFadd_nan_r. reflexivity.
Qed.

(** X8.  In binary64, a NaN in the convection sample gets past the norm
    test of both kernels.  With assertions it stops at the first one;
    without, no check catches it, not even [tau > 1e3]: [supg] returns
    the vector (NaN, NaN) and [supg2] returns NaN. *)
Theorem nan_sample_is_returned
    (L : Libm spec_float) (D : Dolfin spec_float) (sigma : spec_float)
    (p : Z) (c : Cell spec_float) (b : spec_float * spec_float)
    (tau0 : spec_float) :
  fst b = S754_nan \/ snd b = S754_nan ->
  supg_eval false sigma p c b = AssertFailed h_le_diameter /\
  supg_eval true sigma p c b = Returned (S754_nan, S754_nan) /\
  supg2_eval false sigma p c b tau0 = AssertFailed Pe_positive /\
  supg2_eval true sigma p c b tau0 = Returned S754_nan.
Proof.
  intros Hb. pose proof (conv_norm_nan b Hb) as Hn.
  assert (Hh : directed_diameter (volume c) c b = S754_nan).
  { unfold directed_diameter. rewrite Hn. cbn [fmul fdiv binary64].
    rewrite SFmul_nan_r. reflexivity. }
  assert (HPe : forall nrm, peclet sigma p nrm S754_nan = S754_nan).
  { intros nrm. unfold peclet. cbn [fmul fdiv binary64].
    rewrite SFmul_nan_r. reflexivity. }
  assert (Hxi : xi S754_nan = S754_nan) by reflexivity.
  assert (Htau : forall nrm x, tau_of p nrm S754_nan x = S754_nan).
  { intros nrm x. unfold tau_of. cbn [fmul fdiv binary64].
    rewrite SFmul_nan_r. reflexivity. }
  unfold supg_eval, supg2_eval. cbv zeta.
  rewrite Hn, Hh, HPe, Hxi, Htau. cbn [flt fle fmul binary64].
  rewrite !SFmul_nan_r. repeat split; reflexivity.
Qed.
End NaNSample.

Lemma plane_eps_bounds :
  (0 < DOLFIN_EPS (Dolfin := plane_mesh (T := R)) <= 1)%R.
Proof.
  unfold DOLFIN_EPS, plane_mesh, dec. cbn. split.
  - apply Rdiv_lt_0_compat; lra.
  - apply Rmult_le_reg_r with 10000000000000000%R; [lra|].
    unfold Rdiv. rewrite Rmult_assoc, Rinv_l by lra. lra.
Qed.

(** On the unit triangle, along its first edge. *)
Lemma supg_output_within_half_diameter_witness :
  (tau (D := plane_mesh) 1%R 1 unit_triangle (1%R, 0%R)
   * conv_norm (1%R, 0%R)
   <= directed_diameter (volume (Dolfin := plane_mesh) unit_triangle)
        unit_triangle (1%R, 0%R) / (2 * IZR 1))%R.
Proof.
  refine (proj1 (supg_output_within_half_diameter plane_mesh 1%R 1
                   unit_triangle _ _ _ _ _ _ _ _ (1%R, 0%R)) _).
  - reflexivity.
  - rewrite unit_triangle_area_exact. lra.
  - lra.
  - lia.
  - apply plane_eps_bounds.
  - apply longest_edge_dominates.
  - apply longest_edge_dominates.
  - apply longest_edge_dominates.
  - apply Rltb_false. rewrite conv_norm_e1_exact.
    apply plane_eps_bounds.
Defined.

Lemma supg_tau_diffusive_bound_witness :
  (tau (D := plane_mesh) 1%R 1 unit_triangle (1%R, 0%R)
   <= directed_diameter (volume (Dolfin := plane_mesh) unit_triangle)
        unit_triangle (1%R, 0%R)
      * directed_diameter (volume (Dolfin := plane_mesh) unit_triangle)
          unit_triangle (1%R, 0%R)
      / (12 * (IZR 1 * IZR 1) * 1))%R.
Proof.
  refine (proj1 (supg_tau_diffusive_bound plane_mesh 1%R 1
                   unit_triangle _ _ _ _ _ _ _ _ (1%R, 0%R)) _).
  - reflexivity.
  - rewrite unit_triangle_area_exact. lra.
  - lra.
  - lia.
  - apply plane_eps_bounds.
  - apply longest_edge_dominates.
  - apply longest_edge_dominates.
  - apply longest_edge_dominates.
  - apply Rltb_false. rewrite conv_norm_e1_exact.
    apply plane_eps_bounds.
Defined.

(** The sample [(2^-20, 0)] on the unit triangle. *)
Lemma supg_returns_sample_times_supg2_witness :
  let b := (two_pow (-20), lit_0 : spec_float) in
  let t0 := S754_finite false 6004799503160570 (-56) in
  exists t : spec_float,
    supg2_eval (L := tanh_is S754_nan) (D := plane_mesh) false lit_1 1
      unit_triangle b lit_0 = Returned t /\
    flt lit_1e3 t = false /\
    (fmul (fst b) t0, fmul (snd b) t0) = (fmul (fst b) t, fmul (snd b) t).
Proof.
  cbv zeta.
  apply (supg_returns_sample_times_supg2 (L := tanh_is S754_nan)
           (D := plane_mesh) false lit_1 1 unit_triangle
           (two_pow (-20), lit_0 : spec_float)).
  - vm_compute. reflexivity.
  - vm_compute. reflexivity.
Defined.

(** The sample [(NaN, 0)] on the unit triangle. *)
Lemma nan_sample_is_returned_witness :
  let b := (S754_nan, lit_0 : spec_float) in
  supg_eval (L := tanh_is S754_nan) (D := plane_mesh) false lit_1 1
    unit_triangle b = AssertFailed h_le_diameter /\
  supg_eval (L := tanh_is S754_nan) (D := plane_mesh) true lit_1 1
    unit_triangle b = Returned (S754_nan, S754_nan) /\
  supg2_eval (L := tanh_is S754_nan) (D := plane_mesh) false lit_1 1
    unit_triangle b lit_0 = AssertFailed Pe_positive /\
  supg2_eval (L := tanh_is S754_nan) (D := plane_mesh) true lit_1 1
    unit_triangle b lit_0 = Returned S754_nan.
Proof.
  apply (nan_sample_is_returned (tanh_is S754_nan) plane_mesh lit_1 1
           unit_triangle (S754_nan, lit_0 : spec_float) lit_0).
  left. reflexivity.
Defined.

(** ** More on the fixed-point coupler *)

Section CouplerLog.
Context {C : Collaborators}.
Variable tol : spec_float.

Lemma flat_map_seq_S {A : Type} (g : nat -> list A) (m : nat) :
  flat_map g (seq 1 m) = flat_map (fun k => g (S k)) (seq 0 m).
Proof.
  rewrite <- seq_shift. induction (seq 0 m) as [|k l IH]; [reflexivity|].
  cbn. rewrite IH. reflexivity.
Qed.

Lemma while_true_log (n : nat) :
  forall (s : coupler) (fuel : nat),
    (forall k, (k < n)%nat -> converged tol (pass k s) = false) ->
    converged tol (pass n s) = true ->
    snd (while_true fuel tol s) =
    flat_map (fun k => calls_of_pass (pass k s))
      (seq 0 (Nat.min fuel (S n))).
Proof.
  induction n as [|n IH]; intros s fuel Hbefore Hnow.
  - destruct fuel as [|fuel]; [reflexivity|].
    cbn [while_true]. rewrite loop_body_eq. cbv zeta.
    rewrite (Hnow : converged tol s = true).
    replace (Nat.min (S fuel) 1) with 1%nat by lia. reflexivity.
  - destruct fuel as [|fuel]; [reflexivity|].
    cbn [while_true]. rewrite loop_body_eq. cbv zeta.
    rewrite (Hbefore 0%nat ltac:(lia) : converged tol s = false).
    specialize (IH (next s) fuel).
    destruct (while_true fuel tol (next s)) as [r rest]. cbn [snd] in *.
    rewrite IH.
    + replace (Nat.min (S fuel) (S (S n))) with (S (Nat.min fuel (S n)))
        by lia.
      cbn [seq flat_map]. rewrite flat_map_seq_S.
      f_equal. apply flat_map_ext. intros k. rewrite pass_S. reflexivity.
    + intros k Hk. rewrite <- pass_S. apply Hbefore. lia.
    + rewrite <- pass_S. exact Hnow.
Qed.

(** X9.  A run whose test first succeeds in pass [n] has, by then,
    called the heat solver and the Stokes solver [n + 1] times each, in
    turn, the Stokes solver also in the pass that passes the test; cut
    short after [fuel] passes it has called each [fuel] times. *)
Theorem fixed_point_call_log
    (u0 : Velocity) (p0 : Pressure) (th0 : Temperature) (n fuel : nat)
    (Hbefore : forall k, (k < n)%nat ->
                 converged tol (pass k (initial th0)) = false)
    (Hnow : converged tol (pass n (initial th0)) = true) :
  snd (_solve_fixed_point fuel u0 p0 th0 tol) =
    flat_map (fun k => calls_of_pass (pass k (initial th0)))
      (seq 0 (Nat.min fuel (S n))) /\
  length (snd (_solve_fixed_point fuel u0 p0 th0 tol)) =
    (2 * Nat.min fuel (S n))%nat.
Proof.
  rewrite solve_snd, (while_true_log n _ fuel Hbefore Hnow).
  split; [reflexivity|].
  assert (H : forall l : list nat,
             length (flat_map (fun k => calls_of_pass (pass k (initial th0))) l)
             = (2 * length l)%nat).
  { induction l as [|k l IH]; [reflexivity|].
    cbn [flat_map]. rewrite length_app, IH. cbn [length calls_of_pass]. lia. }
  rewrite H, length_seq. reflexivity.
Qed.
End CouplerLog.

Section DecoupledHeat.
Context {C : Collaborators}.
Variable tol : spec_float.

(** X10.  When the heat equation feels neither the flow nor the density
    (its solution is [theta_star] whatever they are), a run of two
    passes or more returns: after one pass, with the initial
    temperature, if that is within the tolerance of [theta_star]; else
    after two, with [theta_star], having solved the heat equation
    twice for the same solution. *)
Theorem fixed_point_decoupled_two_passes
    (theta_star : Temperature)
    (Hheat : forall (u : Velocity) (d : Density),
               solve_stationary u d = theta_star)
    (Hstar : SFltb (errornorm theta_star theta_star) tol = true)
    (u0 : Velocity) (p0 : Pressure) (th0 : Temperature) (fuel : nat) :
  _solve_fixed_point (S (S fuel)) u0 p0 th0 tol =
    (if SFltb (errornorm th0 theta_star) tol
     then (Some (leave (initial th0)), calls_of_pass (initial th0))
     else (Some (leave (next (initial th0))),
           calls_of_pass (initial th0)
           ++ calls_of_pass (next (initial th0)))) /\
  snd (leave (initial th0)) = th0 /\
  snd (leave (next (initial th0))) = theta_star.
Proof.
  split; [|split; [reflexivity|cbn; apply Hheat]].
  assert (Hc : forall s, candidate s = theta_star)
    by (intros s; apply Hheat).
  assert (H0 : converged tol (initial th0)
               = SFltb (errornorm th0 theta_star) tol).
  { unfold converged. rewrite Hc. reflexivity. }
  assert (H1 : converged tol (next (initial th0)) = true).
  { unfold converged. rewrite Hc. cbn [next theta0]. rewrite Hc.
    exact Hstar. }
  unfold _solve_fixed_point. fold (initial th0).
  destruct (split Function_WP) as [u p].
  cbn [while_true]. rewrite !loop_body_eq. cbv zeta.
  rewrite H0. destruct (SFltb (errornorm th0 theta_star) tol).
  - cbn [option_map]. unfold leave, calls_of_pass.
    cbn [up0 theta0].
    destruct (split (stokes_solve _ _)) as [u1 p1]. reflexivity.
  - rewrite loop_body_eq. cbv zeta. rewrite H1.
    cbn [option_map]. unfold leave, calls_of_pass.
    destruct (split (stokes_solve (up0 (next _)) _)) as [u1 p1].
    reflexivity.
Qed.
End DecoupledHeat.

(** The decoupled problem breaks in its second pass. *)
Lemma fixed_point_call_log_witness :
  snd (_solve_fixed_point (C := decoupled) 5 7%Z 7%Z 0%Z tol_1em2) =
    flat_map (fun k => calls_of_pass (pass k (initial (C := decoupled) 0%Z)))
      (seq 0 (Nat.min 5 2)) /\
  length (snd (_solve_fixed_point (C := decoupled) 5 7%Z 7%Z 0%Z tol_1em2))
    = (2 * Nat.min 5 2)%nat.
Proof.
  apply (fixed_point_call_log (C := decoupled) tol_1em2 7%Z 7%Z 0%Z 1 5).
  - intros k Hk. replace k with 0%nat by lia. vm_compute. reflexivity.
  - vm_compute. reflexivity.
Defined.

Lemma fixed_point_decoupled_two_passes_witness :
  _solve_fixed_point (C := decoupled) 5 7%Z 7%Z 0%Z tol_1em2 =
    (if SFltb (errornorm (Collaborators := decoupled) 0%Z 10%Z) tol_1em2
     then (Some (leave (initial (C := decoupled) 0%Z)),
           calls_of_pass (initial (C := decoupled) 0%Z))
     else (Some (leave (next (initial (C := decoupled) 0%Z))),
           calls_of_pass (initial (C := decoupled) 0%Z)
           ++ calls_of_pass (next (initial (C := decoupled) 0%Z)))) /\
  snd (leave (initial (C := decoupled) 0%Z)) = 0%Z /\
  snd (leave (next (initial (C := decoupled) 0%Z))) = 10%Z.
Proof.
  apply (fixed_point_decoupled_two_passes (C := decoupled) tol_1em2 10%Z).
  - intros u d. reflexivity.
  - vm_compute. reflexivity.
Defined.

(** ** [FixedPointSolver] *)

Section FixedPointSolverFacts.
Context {Pb : FixedPointProblem}.
Variable P : fp_parameters.

Lemma py_truediv_nonzero (a b : spec_float) :
  (forall s, b <> S754_zero s) ->
  py_truediv a b = inr (SFdiv prec64 emax64 a b).
Proof.
  intros H. destruct b as [s| | |]; try reflexivity.
  exfalso. exact (H s eq_refl).
Qed.

Lemma SFdiv_nan_right (x : spec_float) :
  SFdiv prec64 emax64 x S754_nan = S754_nan.
Proof. destruct x as [[]|[]| |[]]; reflexivity. Qed.

Lemma fp_iterate_S (j : nat) (v : GenericVector) :
  fp_iterate (S j) v = fp_iterate j (vector_iadd v (problem_F v)).
Proof.
  unfold fp_iterate.
  exact (Nat.iter_succ_r j _ (fun x => vector_iadd x (problem_F x)) v).
Qed.

(** After a pass through the body, the norms to come are those that
    were to come, one place earlier. *)
Lemma norm_after_S (nrm : spec_float) (i : nat) (v : GenericVector) :
  norm_after (vector_norm (problem_F v)) i
    (vector_iadd v (problem_F v))
  = norm_after nrm (S i) v.
Proof.
  destruct i as [|i]; [reflexivity|].
  cbn [norm_after]. rewrite fp_iterate_S. reflexivity.
Qed.

Lemma norm_after_tested (j : nat) (v : GenericVector) :
  norm_after (tested_norm 0 v) j v = tested_norm j v.
Proof. destruct j; reflexivity. Qed.

(** The lines printed in passes [k + 1] to [k + j]. *)
Lemma _report_ok (k : nat) (nrm nrm0 : spec_float) :
  (report P = true -> forall s, nrm0 <> S754_zero s) ->
  _report P k nrm nrm0 =
  inr (if report P then [(k, nrm, SFdiv prec64 emax64 nrm nrm0)] else []).
Proof.
  intros H. unfold _report. destruct (report P); [|reflexivity].
  rewrite py_truediv_nonzero by (apply H; reflexivity). reflexivity.
Qed.

Lemma fp_while_exit (j : nat) :
  forall (fuel : nat) (v : GenericVector) (nrm nrm0 : spec_float)
         (k : nat) (printed : list (nat * spec_float * spec_float)),
    (report P = true -> forall s, nrm0 <> S754_zero s) ->
    (forall i, (i < j)%nat ->
       loop_condition P (norm_after nrm i v) nrm0 = inr true) ->
    loop_condition P (norm_after nrm j v) nrm0 = inr false ->
    fp_while P fuel v nrm nrm0 k printed =
    if (j <=? fuel)%nat
    then FPReturned (fp_iterate j v)
           (printed ++
            if report P
            then map (fun i => ((k + i)%nat, norm_after nrm i v,
                                SFdiv prec64 emax64 (norm_after nrm i v) nrm0))
                   (seq 1 j)
            else [])
    else FPRunning.
Proof.
  induction j as [|j IH]; intros fuel v nrm nrm0 k printed Hnz Hbefore Hnow.
  - cbn [norm_after] in Hnow.
    destruct fuel as [|fuel]; cbn [fp_while]; rewrite Hnow;
      cbn [Nat.leb seq map fp_iterate Nat.iter];
      destruct (report P); rewrite app_nil_r; reflexivity.
  - pose proof (Hbefore 0%nat ltac:(lia)) as H0. cbn [norm_after] in H0.
    destruct fuel as [|fuel]; cbn [fp_while]; rewrite H0; [reflexivity|].
    cbv zeta. rewrite (_report_ok _ _ _ Hnz).
    rewrite (IH fuel _ _ nrm0 (S k) _ Hnz).
    + change (S j <=? S fuel)%nat with (j <=? fuel)%nat.
      destruct (j <=? fuel)%nat; [|reflexivity].
      rewrite fp_iterate_S. f_equal.
      rewrite <- app_assoc. f_equal.
      destruct (report P); [|reflexivity].
      cbn [seq map app]. rewrite Nat.add_1_r. f_equal.
      rewrite <- (seq_shift j 1), map_map.
      apply map_ext. intros i. rewrite (norm_after_S nrm).
      rewrite Nat.add_succ_r. reflexivity.
    + intros i Hi. rewrite (norm_after_S nrm). apply Hbefore. lia.
    + rewrite (norm_after_S nrm). exact Hnow.
Qed.

Lemma fp_while_inv (fuel : nat) :
  forall (v : GenericVector) (nrm nrm0 : spec_float) (k : nat)
         (printed : list (nat * spec_float * spec_float))
         (w : GenericVector) (out : list (nat * spec_float * spec_float)),
    fp_while P fuel v nrm nrm0 k printed = FPReturned w out ->
    exists j, (j <= fuel)%nat /\ w = fp_iterate j v /\
      loop_condition P (norm_after nrm j v) nrm0 = inr false /\
      forall i, (i < j)%nat ->
        loop_condition P (norm_after nrm i v) nrm0 = inr true.
Proof.
  induction fuel as [|fuel IH]; intros v nrm nrm0 k printed w out H;
    cbn [fp_while] in H.
  - destruct (loop_condition P nrm nrm0) as [e|[|]] eqn:E;
      try discriminate.
    exists 0%nat. inversion H; subst.
    repeat split; [lia|exact E|intros i Hi; lia].
  - destruct (loop_condition P nrm nrm0) as [e|[|]] eqn:E;
      try discriminate.
    + cbv zeta in H.
      destruct (_report P (S k) (vector_norm (problem_F v)) nrm0)
        as [e|line]; [discriminate|].
      destruct (IH _ _ _ _ _ _ _ H) as (j & Hj & Hw & Hnow & Hbefore).
      exists (S j). rewrite fp_iterate_S.
      rewrite <- (norm_after_S nrm).
      repeat split; [lia|exact Hw|exact Hnow|].
      intros [|i] Hi; [exact E|].
      rewrite <- (norm_after_S nrm). apply Hbefore. lia.
    + exists 0%nat. inversion H; subst.
      repeat split; [lia|exact E|intros i Hi; lia].
Qed.

Lemma fp_while_running (fuel : nat) :
  forall (v : GenericVector) (nrm nrm0 : spec_float) (k : nat)
         (printed : list (nat * spec_float * spec_float)),
    (report P = true -> forall s, nrm0 <> S754_zero s) ->
    (forall i, (i <= fuel)%nat ->
       loop_condition P (norm_after nrm i v) nrm0 = inr true) ->
    fp_while P fuel v nrm nrm0 k printed = FPRunning.
Proof.
  induction fuel as [|fuel IH]; intros v nrm nrm0 k printed Hnz Hall;
    pose proof (Hall 0%nat ltac:(lia)) as H0; cbn [norm_after] in H0;
    cbn [fp_while]; rewrite H0; [reflexivity|].
  cbv zeta. rewrite (_report_ok _ _ _ Hnz).
  apply IH; [exact Hnz|].
  intros i Hi. rewrite (norm_after_S nrm). apply Hall. lia.
Qed.

(** X11.  The call returns at the first test that fails, after [j]
    passes, with the vector as these passes have left it and the lines
    printed so far; the norm that test looks at is that of the residual
    of the iterate before, not of the vector returned.  With fewer
    than [j] passes allowed it is still running. *)
Theorem FixedPointSolver_solve_exit
    (v : GenericVector) (j fuel : nat)
    (Hnz : report P = true -> forall s, tested_norm 0 v <> S754_zero s)
    (Hbefore : forall i, (i < j)%nat ->
       loop_condition P (tested_norm i v) (tested_norm 0 v) = inr true)
    (Hnow : loop_condition P (tested_norm j v) (tested_norm 0 v)
            = inr false) :
  FixedPointSolver_solve P fuel v =
  if (j <=? fuel)%nat
  then FPReturned (fp_iterate j v) (printed_upto P j v)
  else FPRunning.
Proof.
  unfold FixedPointSolver_solve. cbv zeta.
  change (vector_norm (problem_F v)) with (tested_norm 0 v).
  rewrite (_report_ok _ _ _ Hnz).
  rewrite (fp_while_exit j fuel v _ _ _ _ Hnz).
  - destruct (j <=? fuel)%nat; [|reflexivity]. f_equal.
    unfold printed_upto. destruct (report P); [|reflexivity].
    cbn [seq map app]. f_equal.
    apply map_ext. intros i. rewrite norm_after_tested. reflexivity.
  - intros i Hi. rewrite norm_after_tested. apply Hbefore, Hi.
  - rewrite norm_after_tested. exact Hnow.
Qed.

(** X12.  Whatever the call returns is an iterate whose test failed, all
    tests before having succeeded; and it is never the iterate after
    one pass, whose test is that of the start. *)
Theorem FixedPointSolver_solve_returned
    (v w : GenericVector) (fuel : nat)
    (out : list (nat * spec_float * spec_float))
    (H : FixedPointSolver_solve P fuel v = FPReturned w out) :
  exists j, (j <= fuel)%nat /\ j <> 1%nat /\ w = fp_iterate j v /\
    loop_condition P (tested_norm j v) (tested_norm 0 v) = inr false /\
    forall i, (i < j)%nat ->
      loop_condition P (tested_norm i v) (tested_norm 0 v) = inr true.
Proof.
  unfold FixedPointSolver_solve in H. cbv zeta in H.
  change (vector_norm (problem_F v)) with (tested_norm 0 v) in H.
  destruct (_report P 0 (tested_norm 0 v) (tested_norm 0 v)) as [e|line];
    [discriminate|].
  destruct (fp_while_inv _ _ _ _ _ _ _ _ H) as (j & Hj & Hw & Hnow & Hbefore).
  rewrite norm_after_tested in Hnow.
  assert (Hb : forall i, (i < j)%nat ->
            loop_condition P (tested_norm i v) (tested_norm 0 v) = inr true).
  { intros i Hi. rewrite <- norm_after_tested. apply Hbefore, Hi. }
  exists j. repeat split; try assumption.
  intros ->. specialize (Hb 0%nat ltac:(lia)).
  change (tested_norm 1 v) with (tested_norm 0 v) in Hnow. congruence.
Qed.

(** X13.  Once the loop is entered it is not left after one pass: the
    first pass computes the residual of the start again, so its test
    and its report are those of the start, and nothing is raised. *)
Theorem FixedPointSolver_solve_not_one_pass (v : GenericVector)
    (H : FixedPointSolver_solve P 0 v = FPRunning) :
  FixedPointSolver_solve P 1 v = FPRunning.
Proof.
  unfold FixedPointSolver_solve in *. cbv zeta in *.
  destruct (_report P 0 (vector_norm (problem_F v)) (vector_norm (problem_F v)))
    as [e|line] eqn:E; [discriminate|].
  cbn [fp_while] in *.
  destruct (loop_condition P (vector_norm (problem_F v))
              (vector_norm (problem_F v))) as [e|[|]] eqn:El;
    try discriminate.
  cbv zeta.
  assert (E1 : exists line', _report P 1 (vector_norm (problem_F v))
            (vector_norm (problem_F v)) = inr line').
  { unfold _report in *. destruct (report P); [|eexists; reflexivity].
    destruct (py_truediv _ _); [discriminate|eexists; reflexivity]. }
  destruct E1 as [line' ->]. reflexivity.
Qed.

(** X14.  There is no cap on the passes: as long as the tests succeed
    the loop goes on, whatever [maximum_iterations] is. *)
Theorem FixedPointSolver_solve_no_cap (v : GenericVector) (fuel : nat)
    (Hnz : report P = true -> forall s, tested_norm 0 v <> S754_zero s)
    (Hall : forall i, (i <= fuel)%nat ->
       loop_condition P (tested_norm i v) (tested_norm 0 v) = inr true) :
  FixedPointSolver_solve P fuel v = FPRunning.
Proof.
  unfold FixedPointSolver_solve. cbv zeta.
  change (vector_norm (problem_F v)) with (tested_norm 0 v).
  rewrite (_report_ok _ _ _ Hnz).
  apply fp_while_running; [exact Hnz|].
  intros i Hi. rewrite norm_after_tested. apply Hall, Hi.
Qed.

(** X15.  A vector whose residual has norm zero, an exact solution, does
    not make the call return: the relative norm [nrm / nrm0] divides
    by zero, in the first report or, without reports and with an
    absolute tolerance that is not negative, in the first test.  The
    vector is left as it was. *)
Theorem FixedPointSolver_solve_zero_residual
    (v : GenericVector) (s : bool) (fuel : nat)
    (Hzero : vector_norm (problem_F v) = S754_zero s)
    (Htol : report P = true \/
            SFltb (absolute_tolerance P) (S754_zero s) = false) :
  FixedPointSolver_solve P fuel v = FPRaised ZeroDivisionError v.
Proof.
  unfold FixedPointSolver_solve. cbv zeta. rewrite Hzero.
  unfold _report. destruct (report P) eqn:Er; [reflexivity|].
  destruct Htol as [?|Htol]; [discriminate|].
  destruct fuel; cbn [fp_while]; unfold loop_condition; rewrite Htol;
    reflexivity.
Qed.

(** X16.  A residual whose norm is NaN counts as converged, whatever the
    tolerances: both comparisons of the test are false, and the call
    returns at once with the vector as it was. *)
Theorem FixedPointSolver_solve_nan_residual
    (v : GenericVector) (fuel : nat)
    (Hnan : vector_norm (problem_F v) = S754_nan) :
  FixedPointSolver_solve P fuel v = FPReturned v (printed_upto P 0 v).
Proof.
  unfold FixedPointSolver_solve, printed_upto, tested_norm. cbv zeta.
  cbn [Nat.pred seq map]. change (fp_iterate 0 v) with v. rewrite Hnan.
  unfold _report. cbn [py_truediv].
  assert (Hc : loop_condition P S754_nan S754_nan = inr false).
  { unfold loop_condition. rewrite SFltb_nan_r. cbn [py_truediv].
    rewrite SFdiv_nan_right, SFltb_nan_r. reflexivity. }
  destruct (report P); destruct fuel; cbn [fp_while]; rewrite Hc;
    reflexivity.
Qed.
End FixedPointSolverFacts.

(** X17.  With the tolerances [__init__] sets, both 0.0, the call returns
    only at a residual norm that is not above zero: a zero, a NaN, or
    a negative value. *)
Theorem FixedPointSolver_default_tolerances
    {Pb : FixedPointProblem} (v w : GenericVector) (fuel : nat)
    (out : list (nat * spec_float * spec_float))
    (H : FixedPointSolver_solve FixedPointSolver_init fuel v
         = FPReturned w out) :
  exists j, (j <= fuel)%nat /\ w = fp_iterate j v /\
    match tested_norm j v with
    | S754_zero _ | S754_nan => True
    | S754_infinity s | S754_finite s _ _ => s = true
    end.
Proof.
  unfold FixedPointSolver_solve in H. cbv zeta in H.
  change (vector_norm (problem_F v)) with (tested_norm 0 v) in H.
  destruct (_report FixedPointSolver_init 0 (tested_norm 0 v)
              (tested_norm 0 v)) as [e|line]; [discriminate|].
  destruct (fp_while_inv _ _ _ _ _ _ _ _ _ H) as (j & Hj & Hw & Hnow & _).
  rewrite norm_after_tested in Hnow.
  exists j. split; [exact Hj|]. split; [exact Hw|].
  unfold loop_condition in Hnow. cbn [absolute_tolerance FixedPointSolver_init] in Hnow.
  destruct (tested_norm j v) as [s|[|]| |[|] m e]; try exact I;
    try reflexivity; vm_compute in Hnow; discriminate.
Qed.

(** Halving from 1 with the tolerances 0.2 and 0.5: three passes. *)
Lemma FixedPointSolver_solve_exit_witness :
  FixedPointSolver_solve (Pb := halving_problem)
    (tolerances (dec 2 (-1)) lit_0_5) 5 lit_1 =
  if (3 <=? 5)%nat
  then FPReturned (fp_iterate (Pb := halving_problem) 3 lit_1)
         (printed_upto (Pb := halving_problem)
            (tolerances (dec 2 (-1)) lit_0_5) 3 lit_1)
  else FPRunning.
Proof.
  apply (FixedPointSolver_solve_exit (Pb := halving_problem)
           (tolerances (dec 2 (-1)) lit_0_5) lit_1 3 5).
  - intros _ s. vm_compute. discriminate.
  - intros [|[|[|i]]] Hi; [vm_compute; reflexivity ..|lia].
  - vm_compute. reflexivity.
Defined.

Lemma FixedPointSolver_solve_returned_witness :
  exists j, (j <= 5)%nat /\ j <> 1%nat /\
    two_pow (-3) = fp_iterate (Pb := halving_problem) j lit_1 /\
    loop_condition (tolerances (dec 2 (-1)) lit_0_5)
      (tested_norm (Pb := halving_problem) j lit_1)
      (tested_norm (Pb := halving_problem) 0 lit_1) = inr false /\
    forall i, (i < j)%nat ->
      loop_condition (tolerances (dec 2 (-1)) lit_0_5)
        (tested_norm (Pb := halving_problem) i lit_1)
        (tested_norm (Pb := halving_problem) 0 lit_1) = inr true.
Proof.
  eapply (FixedPointSolver_solve_returned (Pb := halving_problem)
            (tolerances (dec 2 (-1)) lit_0_5) lit_1 (two_pow (-3)) 5).
  vm_compute. reflexivity.
Defined.

(** A residual that stays at 1. *)
Lemma FixedPointSolver_solve_not_one_pass_witness :
  FixedPointSolver_solve (Pb := constant_problem) FixedPointSolver_init 1
    lit_0 = FPRunning.
Proof.
  apply (FixedPointSolver_solve_not_one_pass (Pb := constant_problem)
           FixedPointSolver_init lit_0).
  vm_compute. reflexivity.
Defined.

Lemma FixedPointSolver_solve_no_cap_witness :
  FixedPointSolver_solve (Pb := constant_problem)
    (mkParameters 3 lit_0 lit_0 true) 10 lit_0 = FPRunning.
Proof.
  apply (FixedPointSolver_solve_no_cap (Pb := constant_problem)
           (mkParameters 3 lit_0 lit_0 true) lit_0 10).
  - intros _ s. vm_compute. discriminate.
  - intros i _. destruct i; vm_compute; reflexivity.
Defined.

(** Halving from 0, and from NaN. *)
Lemma FixedPointSolver_solve_zero_residual_witness :
  FixedPointSolver_solve (Pb := halving_problem) FixedPointSolver_init 5
    lit_0 = FPRaised ZeroDivisionError lit_0.
Proof.
  apply (FixedPointSolver_solve_zero_residual (Pb := halving_problem)
           FixedPointSolver_init lit_0 false 5).
  - vm_compute. reflexivity.
  - left. reflexivity.
Defined.

Lemma FixedPointSolver_solve_nan_residual_witness :
  FixedPointSolver_solve (Pb := halving_problem)
    (tolerances (dec 1 (-10)) lit_0) 5 S754_nan =
  FPReturned S754_nan
    (printed_upto (Pb := halving_problem)
       (tolerances (dec 1 (-10)) lit_0) 0 S754_nan).
Proof.
  apply (FixedPointSolver_solve_nan_residual (Pb := halving_problem)
           (tolerances (dec 1 (-10)) lit_0) S754_nan 5).
  reflexivity.
Defined.

(** Halving from [2^-1073]: the second residual rounds to zero. *)
Lemma FixedPointSolver_default_tolerances_witness :
  exists j, (j <= 5)%nat /\
    two_pow (-1074) = fp_iterate (Pb := halving_problem) j (two_pow (-1073)) /\
    match tested_norm (Pb := halving_problem) j (two_pow (-1073)) with
    | S754_zero _ | S754_nan => True
    | S754_infinity s | S754_finite s _ _ => s = true
    end.
Proof.
  eapply (FixedPointSolver_default_tolerances (Pb := halving_problem)
            (two_pow (-1073)) (two_pow (-1074)) 5).
  vm_compute. reflexivity.
Defined.

(** ** [solve]: the warm start and the Newton solve *)

Section SolveFacts.
Context {C : Collaborators} {M : Monolithic C}.

(** The velocity and the pressure given to [solve] are not used: the
    warm start overwrites them before anything reads them. *)
Lemma solve_ignores_initial_flow
    (fuel : nat) (u0 u0' : Velocity) (p0 p0' : Pressure)
    (th0 : Temperature) :
  solve fuel u0 p0 th0 = solve fuel u0' p0' th0.
Proof. unfold solve. rewrite !solve_fst. reflexivity. Qed.

(** X18.  The Newton solve starts where the warm start at tolerance 1e-2
    left: from the flow of its last Stokes solve and the temperature
    its last pass started with, at the density of the average of that
    temperature; what the average or the Newton solver raises is
    raised, and a result is split into copies. *)
Theorem solve_after_warm_start
    (u0 : Velocity) (p0 : Pressure) (th0 : Temperature) (n fuel : nat)
    (Hbefore : forall k, (k < n)%nat ->
                 converged tol_1em2 (pass k (initial th0)) = false)
    (Hnow : converged tol_1em2 (pass n (initial th0)) = true) :
  solve fuel u0 p0 th0 =
  if (n <? fuel)%nat
  then
    let s := pass n (initial th0) in
    let up := stokes_solve (up0 s) (body_force (rho (theta0 s))) in
    match _average (theta0 s) with
    | inl e => SolveRaised e
    | inr average =>
        match snes_solve (rho_of_float average)
                (assign_subs Function_WPQ (fst (split up)) (snd (split up))
                   (theta0 s)) with
        | inl e => SolveRaised e
        | inr uptheta => SolveReturned (split_deepcopy uptheta)
        end
    end
  else SolveRunning.
Proof.
  unfold solve. change (dec 1 (-2)) with tol_1em2.
  rewrite solve_fst, (while_true_exit tol_1em2 n _ fuel Hbefore Hnow).
  destruct (n <? fuel)%nat; reflexivity.
Qed.

(** X19.  Without a warm start that converges there is no Newton solve:
    as long as the temperature change stays at or above 1e-2, [solve]
    is in the loop of the warm start. *)
Theorem solve_waits_for_warm_start
    (u0 : Velocity) (p0 : Pressure) (th0 : Temperature) (fuel : nat)
    (Hnever : forall k, converged tol_1em2 (pass k (initial th0)) = false) :
  solve fuel u0 p0 th0 = SolveRunning.
Proof.
  unfold solve. change (dec 1 (-2)) with tol_1em2.
  rewrite solve_fst, (while_true_diverges tol_1em2 fuel _ Hnever).
  reflexivity.
Qed.
End SolveFacts.

(** The decoupled and the drifting problem. *)
Lemma solve_after_warm_start_witness :
  solve (M := toy_monolithic decoupled (fun theta => of_int theta))
    5 7%Z 7%Z 0%Z = SolveReturned (10, 0, 10)%Z.
Proof.
  rewrite (solve_after_warm_start
             (M := toy_monolithic decoupled (fun theta => of_int theta))
             7%Z 7%Z 0%Z 1 5).
  - vm_compute. reflexivity.
  - intros k Hk. replace k with 0%nat by lia. vm_compute. reflexivity.
  - vm_compute. reflexivity.
Defined.

Lemma solve_waits_for_warm_start_witness :
  solve (M := toy_monolithic drifting (fun theta => of_int theta))
    50 7%Z 7%Z 0%Z = SolveRunning.
Proof.
  apply (solve_waits_for_warm_start
           (M := toy_monolithic drifting (fun theta => of_int theta))
           7%Z 7%Z 0%Z 50).
  intros k. unfold converged, candidate. cbn.
  unfold toy_errornorm. replace (Z.abs _) with 1%Z by lia.
  vm_compute. reflexivity.
Defined.
